(** * Vuu: view-port column sets and module assembly

    A shallow embedding of two Scala classes of the Vuu server,

    - [org.finos.vuu.viewport.ViewPortColumns] (the projected column set of a
      view port, with its memoised calculated-column detection), and
    - [io.venuu.vuu.core.module.ModuleFactory] ([TableDefs],
      [ModuleFactoryNode] and the module built by [asModule]),

    followed by the properties their specification states about them.

    Conventions.  A Scala class becomes a Rocq [Module] of the same name whose
    record type is called [t]; a method keeps its name and takes the receiver
    as its last argument.  Code that can throw returns a [Result].  The one
    mutable object, a [ViewPortColumns] instance, is a record of its two
    mutable cells and every method that touches them returns the new record. *)

From Stdlib Require Import String Ascii ZArith OrdersEx.
From stdpp Require Import base option list sorting strings gmap.

Local Open Scope string_scope.
Local Open Scope list_scope.

(** ** Exceptions *)

(** The exceptions the modelled code raises itself are the two
    [NoSuchElementException]s of the Scala library ([None.get] and
    [List().head]); a function supplied by a caller may raise anything. *)
Inductive Throwable :=
  | NoSuchElementException (msg : string)
  | OtherThrowable (msg : string).

Inductive Result (A : Type) :=
  | Ok (a : A)
  | Throw (e : Throwable).
Arguments Ok {A} a.
Arguments Throw {A} e.

Global Instance Result_ret : MRet Result := fun A a => Ok a.

Global Instance Result_bind : MBind Result := fun A B k r =>
  match r with
  | Ok a => k a
  | Throw e => Throw e
  end.

(** [Option.get] *)
Definition Option_get {A} (o : option A) : Result A :=
  match o with
  | Some a => Ok a
  | None => Throw (NoSuchElementException "None.get")
  end.

(** [List.head] *)
Definition List_head {A} (l : list A) : Result A :=
  match l with
  | a :: _ => Ok a
  | [] => Throw (NoSuchElementException "head of empty list")
  end.

(** [List.count(p)] *)
Definition List_count {A} (p : A → bool) (l : list A) : nat :=
  length (List.filter p l).

(** [List.toMap]: a later binding of a key replaces an earlier one. *)
Definition toMap {V} (l : list (string * V)) : gmap string V :=
  foldl (fun m kv => <[kv.1 := kv.2]> m) ∅ l.

(** ** Rows and columns *)

(** The primitive tags a column can carry. *)
Inductive DataType :=
  | TString | TInt | TLong | TDouble | TBoolean | TChar.

Global Instance DataType_eq_dec : EqDecision DataType.
Proof. solve_decision. Defined.

(** Cell values ([Any] in the source).  [ANull] is Scala's [null]. *)
Inductive Any :=
  | ANull
  | AString (s : string)
  | AInt (z : Z)
  | ALong (z : Z)
  | ABoolean (b : bool)
  | AChar (c : ascii).

(** [RowWithData(key, data)], the row class [pullRowAlwaysFilter] builds. *)
Inductive RowData :=
  | RowWithData (key : string) (data : gmap string Any).

Definition RowData_data (row : RowData) : gmap string Any :=
  match row with RowWithData _ data => data end.

(** A column.  [calculatedExpression] is present exactly for the instances of
    [CalculatedColumn]; it is a pure function of a row. *)
Record Column := {
  name : string;
  dataType : DataType;
  calculatedExpression : option (RowData → Any)
}.

(** [c.isInstanceOf[CalculatedColumn]] *)
Definition isCalculated (c : Column) : bool :=
  match calculatedExpression c with Some _ => true | None => false end.

(** Modelled from the spec: [RowData.get(column)] is declared outside these
    sources.  A physical column reads the value stored under its name ([null]
    when the row has none); a calculated column evaluates its expression
    against the full source row. *)
Definition RowData_get (row : RowData) (c : Column) : Any :=
  match calculatedExpression c with
  | Some expr => expr row
  | None => default ANull (RowData_data row !! name c)
  end.

(** The (name, dataType) pair [equals] compares. *)
Definition signature (c : Column) : string * DataType := (name c, dataType c).

(** ** [sortBy(c => c.name)]

    Scala's [sortBy] is a stable sort under [String.compareTo], which compares
    two strings character by character and puts a proper prefix first, as
    [String.leb] does.  A stable sort by a total preorder has one possible
    result, computed here by insertion:
    an element is placed in front of the first element that is not smaller,
    hence in front of the equal elements that followed it in the input. *)
Definition name_le (c1 c2 : Column) : Prop := String.leb (name c1) (name c2) = true.

Fixpoint insertByName (c : Column) (l : list Column) : list Column :=
  match l with
  | [] => [c]
  | d :: l' =>
      if String.leb (name c) (name d) then c :: d :: l'
      else d :: insertByName c l'
  end.

Fixpoint sortByName (l : list Column) : list Column :=
  match l with
  | [] => []
  | c :: l' => insertByName c (sortByName l')
  end.

(** ** [ViewPortColumnCreator]

    The object that recognises and parses the textual form of a calculated
    column is declared outside these sources; [ViewPortColumns] uses two of
    its functions, taken here as an interface. *)
Class ViewPortColumnCreator := {
  isCalculatedColumn : string → bool;
  parseCalcColumn : string → string * string * string
}.

(** ** [class ViewPortColumns(sourceColumns: List[Column])] *)
Module ViewPortColumns.

(** The two mutable cells of an instance: the [var columns] and the cell of
    the [lazy val hasCalculatedColumn], [None] until it is first forced. *)
Record t := {
  columns : list Column;
  hasCalculatedColumn : option bool
}.

Definition new (sourceColumns : list Column) : t :=
  {| columns := sourceColumns; hasCalculatedColumn := None |}.

Definition mismatch (columnPair : Column * Column) : bool :=
  negb (bool_decide (name columnPair.1 = name columnPair.2))
  || negb (bool_decide (dataType columnPair.1 = dataType columnPair.2)).

(** [equals], for an argument that is a [ViewPortColumns]; [canEqual] holds of
    every such argument. *)
Definition equals (this that : t) : bool :=
  bool_decide (length (columns this) = length (columns that))
  && bool_decide (0 = List_count mismatch
                        (zip (sortByName (columns this)) (sortByName (columns that)))).

Definition addColumn (column : Column) (this : t) : t :=
  {| columns := columns this ++ [column];
     hasCalculatedColumn := hasCalculatedColumn this |}.

Definition columnExists (n : string) (this : t) : bool :=
  existsb (fun c => bool_decide (name c = n)) (columns this).

Definition getColumns (this : t) : list Column := columns this.

Definition getEvaluatedName `{ViewPortColumnCreator} (n : string) : string :=
  if isCalculatedColumn n then
    let '(calcName, _, _) := parseCalcColumn n in calcName
  else n.

Definition getColumnForName `{ViewPortColumnCreator} (n : string) (this : t)
  : option Column :=
  let evaluatedName := getEvaluatedName n in
  List.find (fun c => bool_decide (name c = evaluatedName)) (columns this).

Definition count (this : t) : nat := length (columns this).

(** Reading the [lazy val]: the first read computes the value from the
    columns of that moment and stores it; later reads return the stored
    value. *)
Definition force_hasCalculatedColumn (this : t) : bool * t :=
  match hasCalculatedColumn this with
  | Some b => (b, this)
  | None =>
      let b := existsb isCalculated (columns this) in
      (b, {| columns := columns this; hasCalculatedColumn := Some b |})
  end.

Definition pullRowAlwaysFilter (key : string) (row : RowData) (this : t) : RowData :=
  let rowData := toMap ((fun c => (name c, RowData_get row c)) <$> getColumns this) in
  RowWithData key rowData.

Definition pullRow (key : string) (row : RowData) (this : t) : RowData * t :=
  let '(b, this') := force_hasCalculatedColumn this in
  if negb b then (row, this')
  else (pullRowAlwaysFilter key row this', this').

End ViewPortColumns.

(** ** Types of the server API

    [TableDef], [JoinTableDef] (a subclass of [TableDef]), [DataTable],
    [VuuServer], [Provider], [RpcHandler] and [java.nio.file.Path] are
    declared outside these sources.  The module factory only reads the name of
    a table definition and of a table, and passes the rest around. *)
Class ServerApi := {
  TableDef : Type;
  TableDef_name : TableDef → string;
  JoinTableDef : Type;
  JoinTableDef_upcast : JoinTableDef → TableDef;
  DataTable : Type;
  DataTable_name : DataTable → string;
  VuuServer : Type;
  Provider : Type;
  RpcHandler : Type;
  Path : Type
}.

Record StaticServedResource `{ServerApi} := {
  uriDirectory : string;
  path : Path;
  canBrowse : bool
}.

(** ** [case class TableDefs] *)
Module TableDefs.
Section defs.
Context `{ServerApi}.

Definition ProviderFunc : Type := DataTable → VuuServer → Provider.

(** A join function has the Scala type [TableDefs => JoinTableDef] and may
    throw.  Its argument type is the class being defined, so it is
    represented by its action on the realized list: at its one call site
    (in [asModule]) the argument is a [TableDefs] whose [tableDefs] and
    [joinDefs] are both [List()], and is therefore determined by that
    list. *)
Definition JoinFunc : Type := list TableDef → Result JoinTableDef.

Record t := {
  realizedTableDefs : list TableDef;
  tableDefs : list (TableDef * ProviderFunc);
  joinDefs : list JoinFunc
}.

Definition add (tableDef : TableDef) (func : ProviderFunc) (this : t) : t :=
  {| realizedTableDefs := realizedTableDefs this;
     tableDefs := tableDefs this ++ [(tableDef, func)];
     joinDefs := joinDefs this |}.

Definition addRealized (tableDef : TableDef) (this : t) : t :=
  {| realizedTableDefs := realizedTableDefs this ++ [tableDef];
     tableDefs := tableDefs this;
     joinDefs := joinDefs this |}.

Definition addJoin (func : JoinFunc) (this : t) : t :=
  {| realizedTableDefs := realizedTableDefs this;
     tableDefs := tableDefs this;
     joinDefs := joinDefs this ++ [func] |}.

Definition get (n : string) (this : t) : Result TableDef :=
  Option_get (List.find (fun td => bool_decide (TableDef_name td = n))
                        (realizedTableDefs this)).

(** What a join function sees when it calls [get] on its argument. *)
Definition ofRealized (realized : list TableDef) : t :=
  {| realizedTableDefs := realized; tableDefs := []; joinDefs := [] |}.

End defs.
End TableDefs.

(** ** [trait ViewServerModule], as implemented by [asModule] *)
Module ViewServerModule.
Section defs.
Context `{ServerApi}.

(** [rpcHandlerUnrealized] and [getProviderForTable] are methods: their
    bodies run, and can throw, when they are called.  [serializationMixin]
    is the constant [null] and is left out. *)
Record t := {
  name : string;
  tableDefs : list TableDef;
  rpcHandlerUnrealized : Result (VuuServer → RpcHandler);
  getProviderForTable : DataTable → VuuServer → Result Provider;
  staticFileResources : list StaticServedResource
}.

End defs.
End ViewServerModule.

(** ** [case class ModuleFactoryNode] *)
Module ModuleFactoryNode.
Section defs.
Context `{ServerApi}.

Record t := {
  tableDefs : TableDefs.t;
  rpc : list (VuuServer → RpcHandler);
  vsName : string;
  staticServedResources : list StaticServedResource
}.

Definition addTable (tableDef : TableDef) (func : TableDefs.ProviderFunc) (this : t) : t :=
  {| tableDefs := TableDefs.add tableDef func (tableDefs this);
     rpc := rpc this;
     vsName := vsName this;
     staticServedResources := staticServedResources this |}.

Definition addJoinTable (func : TableDefs.JoinFunc) (this : t) : t :=
  {| tableDefs := TableDefs.addJoin func (tableDefs this);
     rpc := rpc this;
     vsName := vsName this;
     staticServedResources := staticServedResources this |}.

Definition addRpcHandler (rpcFunc : VuuServer → RpcHandler) (this : t) : t :=
  {| tableDefs := tableDefs this;
     rpc := rpc this ++ [rpcFunc];
     vsName := vsName this;
     staticServedResources := staticServedResources this |}.

Definition addStaticResource (uri : string) (p : Path) (browse : bool) (this : t) : t :=
  {| tableDefs := tableDefs this;
     rpc := rpc this;
     vsName := vsName this;
     staticServedResources :=
       staticServedResources this
         ++ [{| uriDirectory := uri; path := p; canBrowse := browse |}] |}.

(** The [foreach] over the join functions, threading the local
    [var mutableTableDefs]; an exception of a join function leaves the
    loop. *)
Fixpoint realizeJoins (funcs : list TableDefs.JoinFunc) (mutableTableDefs : TableDefs.t)
  : Result TableDefs.t :=
  match funcs with
  | [] => Ok mutableTableDefs
  | toJTFunc :: rest =>
      realizedJoinTableDef ← toJTFunc (TableDefs.realizedTableDefs mutableTableDefs);
      realizeJoins rest
        (TableDefs.addRealized (JoinTableDef_upcast realizedJoinTableDef) mutableTableDefs)
  end.

Definition asModule (this : t) : Result ViewServerModule.t :=
  let baseTables := TableDefs.tableDefs (tableDefs this) in
  let justBaseTables := fst <$> baseTables in
  mutableTableDefs ←
    realizeJoins (TableDefs.joinDefs (tableDefs this))
                 {| TableDefs.realizedTableDefs := justBaseTables;
                    TableDefs.tableDefs := [];
                    TableDefs.joinDefs := [] |};
  let theName := vsName this in
  Ok {| ViewServerModule.name := theName;
        ViewServerModule.tableDefs := TableDefs.realizedTableDefs mutableTableDefs;
        ViewServerModule.rpcHandlerUnrealized := List_head (rpc this);
        ViewServerModule.getProviderForTable := fun table viewserver =>
          found ← Option_get
            (List.find (fun '(td, func) =>
                          bool_decide (TableDef_name td = DataTable_name table))
                       baseTables);
          Ok (found.2 table viewserver);
        ViewServerModule.staticFileResources := staticServedResources this |}.

End defs.
End ModuleFactoryNode.

(** ** [object ModuleFactory] *)
Module ModuleFactory.
Section defs.
Context `{ServerApi}.

Definition withNamespace (ns : string) : ModuleFactoryNode.t :=
  {| ModuleFactoryNode.tableDefs :=
       {| TableDefs.realizedTableDefs := [];
          TableDefs.tableDefs := [];
          TableDefs.joinDefs := [] |};
     ModuleFactoryNode.rpc := [];
     ModuleFactoryNode.vsName := ns;
     ModuleFactoryNode.staticServedResources := [] |}.

End defs.
End ModuleFactory.

(** ** Sequences of calls

    The properties below speak of what an object does after any sequence of
    calls.  A sequence is a list of calls, run from left to right. *)

(** The two methods of [ViewPortColumns] that write one of its cells. *)
Inductive ColumnsCall :=
  | CallAddColumn (column : Column)
  | CallPullRow (key : string) (row : RowData).

Definition columnsStep (this : ViewPortColumns.t) (call : ColumnsCall) : ViewPortColumns.t :=
  match call with
  | CallAddColumn column => ViewPortColumns.addColumn column this
  | CallPullRow key row => (ViewPortColumns.pullRow key row this).2
  end.

Definition columnsRun (calls : list ColumnsCall) (this : ViewPortColumns.t) : ViewPortColumns.t :=
  foldl columnsStep this calls.

(** The builder methods of [ModuleFactoryNode]. *)
Inductive BuilderCall `{ServerApi} :=
  | CallAddTable (tableDef : TableDef) (func : TableDefs.ProviderFunc)
  | CallAddJoinTable (func : TableDefs.JoinFunc)
  | CallAddRpcHandler (rpcFunc : VuuServer → RpcHandler)
  | CallAddStaticResource (uri : string) (p : Path) (browse : bool).

Definition builderStep `{ServerApi} (node : ModuleFactoryNode.t) (call : BuilderCall)
  : ModuleFactoryNode.t :=
  match call with
  | CallAddTable tableDef func => ModuleFactoryNode.addTable tableDef func node
  | CallAddJoinTable func => ModuleFactoryNode.addJoinTable func node
  | CallAddRpcHandler rpcFunc => ModuleFactoryNode.addRpcHandler rpcFunc node
  | CallAddStaticResource uri p browse => ModuleFactoryNode.addStaticResource uri p browse node
  end.

Definition builderRun `{ServerApi} (calls : list BuilderCall) (node : ModuleFactoryNode.t)
  : ModuleFactoryNode.t :=
  foldl builderStep node calls.

(** The handlers registered by a sequence of builder calls, in order. *)
Definition registeredHandlers `{ServerApi} (calls : list BuilderCall)
  : list (VuuServer → RpcHandler) :=
  omap (fun call => match call with CallAddRpcHandler h => Some h | _ => None end) calls.

(** ** [hashCode]

    [Column.hashCode] and the [hashCode] of a Scala [List[Int]] are declared
    outside these sources and taken as an interface. *)
Class ColumnHashing := {
  Column_hashCode : Column → Z;
  List_hashCode : list Z → Z
}.

(** [ViewPortColumns.hashCode] *)
Definition ViewPortColumns_hashCode `{ColumnHashing} (this : ViewPortColumns.t) : Z :=
  List_hashCode (Column_hashCode <$> sortByName (ViewPortColumns.columns this)).

(** ** Vocabulary of the statements *)

(** [result] is the projection of [row] on the columns [cols] under [key]: a
    row with that key whose fields are exactly the names of [cols], the field
    of a column holding what [row.get] gives for it.  When a name is declared
    more than once the field holds the value of its last declaration. *)
Definition isProjection (cols : list Column) (key : string) (row result : RowData) : Prop :=
  ∃ data,
    result = RowWithData key data
    ∧ dom data = list_to_set (name <$> cols)
    ∧ ∀ l1 c l2, cols = l1 ++ c :: l2 → name c ∉ name <$> l2 →
        data !! name c = Some (RowData_get row c).

(** The order [sortBy(c => c.name)] sorts by, seen on (name, dataType)
    pairs. *)
Definition signature_le (p q : string * DataType) : Prop := String.leb p.1 q.1 = true.

(** No name is declared with two different data types. *)
Definition nameDeterminesType (cols : list Column) : Prop :=
  ∀ c d, c ∈ cols → d ∈ cols → name c = name d → dataType c = dataType d.

(** The cell of the [lazy val] is empty, or holds what the detection would
    compute on the present columns. *)
Definition memoCurrent (this : ViewPortColumns.t) : Prop :=
  ViewPortColumns.hasCalculatedColumn this = None
  ∨ ViewPortColumns.hasCalculatedColumn this
    = Some (existsb isCalculated (ViewPortColumns.columns this)).

(** A stored detection of [true] is backed by a calculated column among the
    present columns. *)
Definition memoNeverOverstates (this : ViewPortColumns.t) : Prop :=
  ViewPortColumns.hasCalculatedColumn this = Some true →
  existsb isCalculated (ViewPortColumns.columns this) = true.

(** The first [length results] join functions of [funcs], each called with
    the base definitions followed by the results of the functions before it,
    returned [results]. *)
Definition realizedInOrder `{ServerApi} (bases : list TableDef)
    (funcs : list TableDefs.JoinFunc) (results : list JoinTableDef) : Prop :=
  ∀ i r, results !! i = Some r →
    ∃ func : TableDefs.JoinFunc, funcs !! i = Some func
            ∧ func (bases ++ (JoinTableDef_upcast <$> take i results)) = Ok r.

(** A join function depends on the definition named [n]: it looks it up with
    [get] in its argument and fails as [get] does when it is not there. *)
Definition dependsOn `{ServerApi} (func : TableDefs.JoinFunc) (n : string) : Prop :=
  ∀ realized e,
    TableDefs.get n (TableDefs.ofRealized realized) = Throw e → func realized = Throw e.

(** The columns appended by a sequence of calls, in order. *)
Definition addedColumns (calls : list ColumnsCall) : list Column :=
  omap (fun call => match call with CallAddColumn c => Some c | _ => None end) calls.

(** The base tables, join functions and static resources registered by a
    sequence of builder calls, in order. *)
Definition registeredTables `{ServerApi} (calls : list BuilderCall)
  : list (TableDef * TableDefs.ProviderFunc) :=
  omap (fun call => match call with CallAddTable td f => Some (td, f) | _ => None end) calls.

Definition registeredJoins `{ServerApi} (calls : list BuilderCall)
  : list TableDefs.JoinFunc :=
  omap (fun call => match call with CallAddJoinTable f => Some f | _ => None end) calls.

Definition registeredResources `{ServerApi} (calls : list BuilderCall)
  : list StaticServedResource :=
  omap (fun call =>
          match call with
          | CallAddStaticResource uri p browse =>
              Some {| uriDirectory := uri; path := p; canBrowse := browse |}
          | _ => None
          end) calls.

(** ** Concrete data for the examples *)

(** Modelled from the spec: the textual form of a calculated column is fixed
    by [ViewPortColumnCreator], outside these sources; the spec only says it
    is a distinguished textual form that marks a name as computed.  The
    examples use the form [name:type:expression]: a string is a reference when
    it contains a colon, and its first three colon-separated fields are the
    name, the type and the expression. *)
Fixpoint splitOn (sep : ascii) (s : string) : list string :=
  match s with
  | EmptyString => [EmptyString]
  | String c s' =>
      if Ascii.eqb c sep then EmptyString :: splitOn sep s'
      else match splitOn sep s' with
           | h :: t => String c h :: t
           | [] => [String c EmptyString]
           end
  end.

(** The [ViewPortColumnCreator] of the examples. *)
Definition colonSyntax : ViewPortColumnCreator := {|
  isCalculatedColumn s := bool_decide (1 < length (splitOn ":" s));
  parseCalcColumn s :=
    match splitOn ":" s with
    | n :: ty :: dsl :: _ => (n, ty, dsl)
    | n :: ty :: [] => (n, ty, "")
    | n :: [] => (n, "", "")
    | [] => ("", "", "")
    end
|}.

Definition qtyColumn : Column :=
  {| name := "qty"; dataType := TInt; calculatedExpression := None |}.

(** The calculated column [calc = qty * 2]. *)
Definition calcColumn : Column :=
  {| name := "calc"; dataType := TInt;
     calculatedExpression := Some (fun row =>
       match RowData_data row !! "qty" with
       | Some (AInt q) => AInt (q * 2)
       | _ => ANull
       end) |}.

Definition qtyRow : RowData := RowWithData "1" {[ "qty" := AInt 5 ]}.

Definition aInt : Column :=
  {| name := "a"; dataType := TInt; calculatedExpression := None |}.

Definition aString : Column :=
  {| name := "a"; dataType := TString; calculatedExpression := None |}.

Definition bLong : Column :=
  {| name := "b"; dataType := TLong; calculatedExpression := None |}.

(** The join of two named definitions, itself a definition named [result]:
    it looks both sides up in its argument. *)
Definition joinOf `{ServerApi} (left right : string) (result : JoinTableDef)
  : TableDefs.JoinFunc :=
  fun realized =>
    _ ← TableDefs.get left (TableDefs.ofRealized realized);
    _ ← TableDefs.get right (TableDefs.ofRealized realized);
    Ok result.

(** A hashing for the examples: a column hashes to the length of its name
    plus a constant per data type, a list to the sum of its elements in a
    positional weighting. *)
Definition exampleHashing : ColumnHashing := {|
  Column_hashCode c :=
    (Z.of_nat (String.length (name c))
     + match dataType c with
       | TString => 1 | TInt => 2 | TLong => 3 | TDouble => 4 | TBoolean => 5 | TChar => 6
       end)%Z;
  List_hashCode l := foldl (fun h x => (31 * h + x)%Z) 1%Z l
|}.

(** An instance used once on a row without calculated column, then extended
    by one. *)
Definition staleColumns : ViewPortColumns.t :=
  ViewPortColumns.addColumn calcColumn
    (ViewPortColumns.pullRow "1" qtyRow (ViewPortColumns.new [qtyColumn])).2.

(** A server API whose table definitions are bare names. *)
Definition namesApi : ServerApi := {|
  TableDef := string;
  TableDef_name := id;
  JoinTableDef := string;
  JoinTableDef_upcast := id;
  DataTable := string;
  DataTable_name := id;
  VuuServer := unit;
  Provider := unit;
  RpcHandler := nat;
  Path := string
|}.

(** ** Example modules *)

(** Two base tables, the join of the two, and a join of that join: first
    declared in dependency order, then with the two joins exchanged. *)
Definition orderedCalls : list (@BuilderCall namesApi) :=
  [ @CallAddTable namesApi "orders" (fun _ _ => tt);
    @CallAddRpcHandler namesApi (fun _ => 1);
    @CallAddTable namesApi "prices" (fun _ _ => tt);
    @CallAddJoinTable namesApi (@joinOf namesApi "orders" "prices" "orderPrices");
    @CallAddRpcHandler namesApi (fun _ => 2);
    @CallAddJoinTable namesApi (@joinOf namesApi "orderPrices" "orders" "orderPricesOrders") ].

Definition exchangedCalls : list (@BuilderCall namesApi) :=
  [ @CallAddTable namesApi "orders" (fun _ _ => tt);
    @CallAddTable namesApi "prices" (fun _ _ => tt);
    @CallAddJoinTable namesApi (@joinOf namesApi "orderPrices" "orders" "orderPricesOrders");
    @CallAddJoinTable namesApi (@joinOf namesApi "orders" "prices" "orderPrices") ].

(** A join declared before the two tables it joins. *)
Definition joinFirstCalls : list (@BuilderCall namesApi) :=
  [ @CallAddJoinTable namesApi (@joinOf namesApi "orders" "prices" "orderPrices");
    @CallAddTable namesApi "orders" (fun _ _ => tt);
    @CallAddTable namesApi "prices" (fun _ _ => tt) ].

(** The two base tables alone, and the same followed by their join. *)
Definition tablesOnlyCalls : list (@BuilderCall namesApi) :=
  [ @CallAddTable namesApi "orders" (fun _ _ => tt);
    @CallAddTable namesApi "prices" (fun _ _ => tt) ].

Definition tablesThenJoinCalls : list (@BuilderCall namesApi) :=
  tablesOnlyCalls
    ++ [ @CallAddJoinTable namesApi (@joinOf namesApi "orders" "prices" "orderPrices") ].

Definition tablesOnlyNode : @ModuleFactoryNode.t namesApi :=
  @builderRun namesApi tablesOnlyCalls (@ModuleFactory.withNamespace namesApi "TEST").

Definition orderedNode : @ModuleFactoryNode.t namesApi :=
  @builderRun namesApi orderedCalls (@ModuleFactory.withNamespace namesApi "TEST").

Definition exchangedNode : @ModuleFactoryNode.t namesApi :=
  @builderRun namesApi exchangedCalls (@ModuleFactory.withNamespace namesApi "TEST").

(** * Properties *)

(** ** [toMap] *)

Lemma toMap_snoc {V} (l : list (string * V)) k v :
  toMap (l ++ [(k, v)]) = <[k := v]> (toMap l).
Proof. unfold toMap. by rewrite foldl_app. Qed.

Lemma dom_toMap {V} (l : list (string * V)) :
  dom (toMap l) = list_to_set (l.*1).
Proof.
  induction l as [|[k v] l IH] using rev_ind; [done|].
  rewrite toMap_snoc, dom_insert_L, IH, fmap_app, list_to_set_app_L.
  simpl. rewrite union_empty_r_L. apply union_comm_L.
Qed.

(** The binding that survives is the last one of its key. *)
Lemma toMap_lookup_last {V} (l1 l2 : list (string * V)) k v :
  k ∉ l2.*1 → toMap (l1 ++ (k, v) :: l2) !! k = Some v.
Proof.
  induction l2 as [|[k' v'] l2 IH] using rev_ind; intros Hk.
  - by rewrite toMap_snoc, lookup_insert_eq.
  - rewrite fmap_app, not_elem_of_app in Hk. destruct Hk as [Hk Hk'].
    simpl in Hk'. rewrite not_elem_of_cons in Hk'. destruct Hk' as [Hne _].
    replace (l1 ++ (k, v) :: l2 ++ [(k', v')])
      with ((l1 ++ (k, v) :: l2) ++ [(k', v')]) by by rewrite <- app_assoc.
    rewrite toMap_snoc, lookup_insert_ne by done. by apply IH.
Qed.

(** ** [find] and [exists] on lists *)

Lemma find_Some_first {A} (p : A → bool) (l : list A) (x : A) :
  List.find p l = Some x ↔
  ∃ l1 l2, l = l1 ++ x :: l2 ∧ p x = true ∧ ∀ y, y ∈ l1 → p y = false.
Proof.
  induction l as [|a l IH]; simpl.
  - split; [done|]. intros (l1 & l2 & Hl & _). by destruct l1.
  - destruct (p a) eqn:Hpa.
    + split.
      * intros [= ->]. exists [], l. split_and!; [done..|]. by intros y ?%elem_of_nil.
      * intros (l1 & l2 & Hl & Hx & Hl1). destruct l1 as [|b l1].
        -- by injection Hl as -> _.
        -- injection Hl as -> _. rewrite Hl1 in Hpa; [done|]. left.
    + rewrite IH. split.
      * intros (l1 & l2 & -> & Hx & Hl1). exists (a :: l1), l2.
        split_and!; [done..|]. intros y [->|?]%elem_of_cons; auto.
      * intros (l1 & l2 & Hl & Hx & Hl1). destruct l1 as [|b l1].
        -- injection Hl as -> _. congruence.
        -- injection Hl as -> ->. exists l1, l2. split_and!; [done..|].
           intros y ?. apply Hl1. by right.
Qed.

Lemma find_None_all {A} (p : A → bool) (l : list A) :
  List.find p l = None ↔ ∀ y, y ∈ l → p y = false.
Proof.
  induction l as [|a l IH]; simpl.
  - split; [|done]. by intros _ y ?%elem_of_nil.
  - destruct (p a) eqn:Hpa.
    + split; [done|]. intros Hall. rewrite Hall in Hpa; [done|left].
    + rewrite IH. split.
      * intros Hall y [->|?]%elem_of_cons; auto.
      * intros Hall y ?. apply Hall. by right.
Qed.

Lemma existsb_elem_of {A} (p : A → bool) (l : list A) :
  existsb p l = true ↔ ∃ x, x ∈ l ∧ p x = true.
Proof.
  rewrite existsb_exists. split; intros (x & Hx & Hp); exists x; split; try done.
  - by apply list_elem_of_In.
  - by apply list_elem_of_In.
Qed.

(** ** [ViewPortColumns] *)

Section ViewPortColumns_properties.
Import ViewPortColumns.

Lemma force_hasCalculatedColumn_columns vpc :
  columns (force_hasCalculatedColumn vpc).2 = columns vpc.
Proof. unfold force_hasCalculatedColumn. by destruct (hasCalculatedColumn vpc). Qed.

Lemma force_hasCalculatedColumn_current vpc :
  memoCurrent vpc →
  (force_hasCalculatedColumn vpc).1 = existsb isCalculated (columns vpc).
Proof.
  unfold force_hasCalculatedColumn. intros [Hm|Hm]; rewrite Hm; done.
Qed.

Lemma pullRow_fst key row vpc :
  (pullRow key row vpc).1 =
    if (force_hasCalculatedColumn vpc).1 then
      pullRowAlwaysFilter key row (force_hasCalculatedColumn vpc).2
    else row.
Proof.
  unfold pullRow. destruct (force_hasCalculatedColumn vpc) as [[] vpc']; done.
Qed.

Lemma pullRow_snd key row vpc :
  (pullRow key row vpc).2 = (force_hasCalculatedColumn vpc).2.
Proof.
  unfold pullRow. destruct (force_hasCalculatedColumn vpc) as [[] vpc']; done.
Qed.

Lemma pullRowAlwaysFilter_isProjection key row vpc :
  isProjection (columns vpc) key row (pullRowAlwaysFilter key row vpc).
Proof.
  unfold pullRowAlwaysFilter, getColumns. eexists. split; [done|]. split.
  - rewrite dom_toMap. f_equal. rewrite <- list_fmap_compose. done.
  - intros l1 c l2 -> Hlast. rewrite fmap_app, fmap_cons. apply toMap_lookup_last.
    rewrite <- list_fmap_compose. done.
Qed.

(** C1 (as amended).  On an instance whose memoised detection is empty or
    agrees with its present columns -- every instance on which no calculated
    column was appended after the first [pullRow] -- [pullRow] returns the
    source row itself when the column set has no calculated column, and
    otherwise a new row under the given key whose fields are exactly the
    column set's names, each holding [row.get] of its column. *)
Theorem pullRow_current_memo (key : string) (row : RowData) (vpc : t) :
  memoCurrent vpc →
  (existsb isCalculated (columns vpc) = false → (pullRow key row vpc).1 = row)
  ∧ (existsb isCalculated (columns vpc) = true →
       isProjection (columns vpc) key row (pullRow key row vpc).1).
Proof.
  intros Hcur. rewrite pullRow_fst, (force_hasCalculatedColumn_current _ Hcur).
  split; intros ->; [done|].
  rewrite <- (force_hasCalculatedColumn_columns vpc).
  apply pullRowAlwaysFilter_isProjection.
Qed.

Lemma pullRow_current_memo_witness :
  (pullRow "1" qtyRow (new [qtyColumn])).1 = qtyRow
  ∧ (pullRow "1" qtyRow (new [qtyColumn; calcColumn])).1
    = RowWithData "1" {[ "qty" := AInt 5; "calc" := AInt 10 ]}.
Proof.
  split.
  - apply (pullRow_current_memo "1" qtyRow (new [qtyColumn])); [by left | reflexivity].
  - destruct (pullRow_current_memo "1" qtyRow (new [qtyColumn; calcColumn]))
      as [_ Hproj]; [by left|].
    destruct (Hproj eq_refl) as (data & Hres & _ & _).
    rewrite Hres. f_equal. injection Hres as <-. by vm_compute.
Defined.

(** C1, counterexample.  After a first [pullRow] on a column set without
    calculated column and an [addColumn] of one, the column set contains a
    calculated column and [pullRow] still returns the source row, which lacks
    the field of that column. *)
Lemma pullRow_stale_counterexample :
  existsb isCalculated (columns staleColumns) = true
  ∧ (pullRow "1" qtyRow staleColumns).1 = qtyRow
  ∧ ¬ isProjection (columns staleColumns) "1" qtyRow (pullRow "1" qtyRow staleColumns).1.
Proof.
  split; [reflexivity|]. split; [reflexivity|].
  intros (data & Hres & Hdom & _).
  change ((pullRow "1" qtyRow staleColumns).1) with qtyRow in Hres.
  injection Hres as <-.
  assert (Hin : "calc" ∈ dom ({[ "qty" := AInt 5 ]} : gmap string Any)).
  { rewrite Hdom. simpl. set_solver. }
  rewrite dom_singleton_L, elem_of_singleton in Hin. discriminate.
Qed.

(** Once the cell of the [lazy val] is filled, no call empties or changes
    it. *)
Lemma columnsStep_memo vpc call b :
  hasCalculatedColumn vpc = Some b →
  hasCalculatedColumn (columnsStep vpc call) = Some b.
Proof.
  intros Hm. destruct call as [column|key row]; simpl; [done|].
  rewrite pullRow_snd. unfold force_hasCalculatedColumn. by rewrite Hm.
Qed.

Lemma columnsRun_memo calls : ∀ vpc b,
  hasCalculatedColumn vpc = Some b →
  hasCalculatedColumn (columnsRun calls vpc) = Some b.
Proof.
  unfold columnsRun. induction calls as [|call calls IH]; intros vpc b Hm; simpl.
  - done.
  - apply IH. by apply columnsStep_memo.
Qed.

Lemma pullRow_memo_false key row vpc :
  hasCalculatedColumn vpc = Some false → (pullRow key row vpc).1 = row.
Proof.
  intros Hm. rewrite pullRow_fst. unfold force_hasCalculatedColumn. by rewrite Hm.
Qed.

(** C9.  The calculated-column detection is evaluated at most once per
    instance: a stored value survives every later [addColumn] and [pullRow];
    and if the first [pullRow] of an instance finds no calculated column,
    every later [pullRow] returns its source row unchanged, whatever columns
    [addColumn] appended in between. *)
Theorem hasCalculatedColumn_evaluated_once (vpc : t) :
  (∀ b calls,
     hasCalculatedColumn vpc = Some b →
     hasCalculatedColumn (columnsRun calls vpc) = Some b)
  ∧ (∀ key0 row0 calls key row,
       hasCalculatedColumn vpc = None →
       existsb isCalculated (columns vpc) = false →
       let used := (pullRow key0 row0 vpc).2 in
       (pullRow key row (columnsRun calls used)).1 = row).
Proof.
  split.
  - intros b calls Hm. by apply columnsRun_memo.
  - intros key0 row0 calls key row Hm Hnone used.
    apply pullRow_memo_false, columnsRun_memo.
    unfold used. rewrite pullRow_snd. unfold force_hasCalculatedColumn.
    by rewrite Hm, Hnone.
Qed.

Lemma hasCalculatedColumn_evaluated_once_witness :
  existsb isCalculated
    (columns (columnsRun [CallAddColumn calcColumn]
                (pullRow "1" qtyRow (new [qtyColumn])).2)) = true
  ∧ (pullRow "2" qtyRow
       (columnsRun [CallAddColumn calcColumn]
          (pullRow "1" qtyRow (new [qtyColumn])).2)).1 = qtyRow.
Proof.
  split; [reflexivity|].
  destruct (hasCalculatedColumn_evaluated_once (new [qtyColumn])) as [_ Hlater].
  apply (Hlater "1" qtyRow [CallAddColumn calcColumn] "2" qtyRow); reflexivity.
Defined.

(** C4 (as amended).  [addColumn] appends the given column and does nothing
    else: it has no failure and no check for a name already present, so the
    column set always grows by one column, the stored detection untouched. *)
Theorem addColumn_appends (column : Column) (vpc : t) :
  getColumns (addColumn column vpc) = getColumns vpc ++ [column]
  ∧ count (addColumn column vpc) = S (count vpc)
  ∧ hasCalculatedColumn (addColumn column vpc) = hasCalculatedColumn vpc.
Proof.
  unfold getColumns, count, addColumn; simpl. split_and!; [done| |done].
  rewrite length_app. simpl. lia.
Qed.

(** C4, counterexample.  Adding a column whose name is taken by a physical
    column of another type completes, with both columns in the set; adding a
    column a second time changes the column set. *)
Lemma addColumn_counterexample :
  getColumns (addColumn aString (new [aInt])) = [aInt; aString]
  ∧ getColumns (addColumn aInt (new [aInt])) ≠ getColumns (new [aInt]).
Proof. split; [reflexivity | discriminate]. Qed.

Section with_creator.
Context `{ViewPortColumnCreator}.

(** C8.  [getColumnForName] looks up the evaluated name -- the calculated
    column's name parsed out of a reference in the calculated-column syntax,
    the given name otherwise -- and returns the first column of that name, or
    nothing when no column of the set has it. *)
Theorem getColumnForName_resolves (n : string) (vpc : t) :
  ∀ calcName ty dsl, parseCalcColumn n = (calcName, ty, dsl) →
  let evaluatedName := if isCalculatedColumn n then calcName else n in
  (∀ c, getColumnForName n vpc = Some c ↔
        ∃ l1 l2, columns vpc = l1 ++ c :: l2 ∧ name c = evaluatedName
                 ∧ ∀ d, d ∈ l1 → name d ≠ evaluatedName)
  ∧ (getColumnForName n vpc = None ↔ ∀ c, c ∈ columns vpc → name c ≠ evaluatedName).
Proof.
  intros calcName ty dsl Hparse evaluatedName.
  assert (Hev : getEvaluatedName n = evaluatedName).
  { unfold getEvaluatedName, evaluatedName. by rewrite Hparse. }
  unfold getColumnForName. rewrite Hev. split.
  - intros c. rewrite find_Some_first. split.
    + intros (l1 & l2 & Hl & Hc & Hl1). exists l1, l2. split_and!; [done| |].
      * by apply bool_decide_eq_true in Hc.
      * intros d Hd. specialize (Hl1 d Hd). by apply bool_decide_eq_false in Hl1.
    + intros (l1 & l2 & Hl & Hc & Hl1). exists l1, l2. split_and!; [done| |].
      * by apply bool_decide_eq_true.
      * intros d Hd. apply bool_decide_eq_false. by apply Hl1.
  - rewrite find_None_all. split; intros Hall c Hc.
    + specialize (Hall c Hc). by apply bool_decide_eq_false in Hall.
    + apply bool_decide_eq_false. by apply Hall.
Qed.

Lemma columnExists_iff n vpc :
  columnExists n vpc = true ↔ ∃ c, c ∈ columns vpc ∧ name c = n.
Proof.
  unfold columnExists. rewrite existsb_elem_of.
  split; intros (c & Hc & Hn); exists c; split; try done.
  - by apply bool_decide_eq_true in Hn.
  - by apply bool_decide_eq_true.
Qed.

(** C10.  [columnExists] is true exactly when a column's name is the given
    string itself; it does not parse references.  So for a reference [s] whose
    calculated column's name differs from [s], on the column set of that one
    column, [getColumnForName s] returns the column and [columnExists s] is
    false. *)
Theorem columnExists_literal :
  (∀ n vpc, columnExists n vpc = true ↔ ∃ c, c ∈ columns vpc ∧ name c = n)
  ∧ (∀ s calcName ty dsl c,
       isCalculatedColumn s = true →
       parseCalcColumn s = (calcName, ty, dsl) →
       calcName ≠ s →
       name c = calcName →
       getColumnForName s (new [c]) = Some c ∧ columnExists s (new [c]) = false).
Proof.
  split; [apply columnExists_iff|].
  intros s calcName ty dsl c Hcalc Hparse Hne Hc. split.
  - unfold getColumnForName, getEvaluatedName. rewrite Hcalc, Hparse. simpl.
    by rewrite bool_decide_eq_true_2.
  - unfold columnExists. simpl. rewrite bool_decide_eq_false_2; [done|congruence].
Qed.

End with_creator.

Lemma getColumnForName_resolves_witness :
  @getColumnForName colonSyntax "calc:Int:=qty*2" (new [qtyColumn; calcColumn])
    = Some calcColumn
  ∧ @getColumnForName colonSyntax "price" (new [qtyColumn; calcColumn]) = None.
Proof.
  split.
  - destruct (@getColumnForName_resolves colonSyntax "calc:Int:=qty*2"
                (new [qtyColumn; calcColumn]) "calc" "Int" "=qty*2" eq_refl)
      as [Hsome _].
    apply Hsome. exists [qtyColumn], []. split_and!; [done..|].
    intros d ->%list_elem_of_singleton. discriminate.
  - destruct (@getColumnForName_resolves colonSyntax "price"
                (new [qtyColumn; calcColumn]) "price" "" "" eq_refl)
      as [_ Hnone].
    apply Hnone. intros c Hc.
    repeat (apply elem_of_cons in Hc as [->|Hc]; [discriminate|]).
    by apply elem_of_nil in Hc.
Defined.

Lemma columnExists_literal_witness :
  @getColumnForName colonSyntax "calc:Int:=qty*2" (new [calcColumn]) = Some calcColumn
  ∧ columnExists "calc:Int:=qty*2" (new [calcColumn]) = false.
Proof.
  destruct (@columnExists_literal colonSyntax) as [_ Href].
  apply (Href "calc:Int:=qty*2" "calc" "Int" "=qty*2" calcColumn);
    [reflexivity | reflexivity | discriminate | reflexivity].
Defined.

(** *** [equals] *)

Lemma String_compare_OT a : ∀ b, String.compare a b = String_as_OT.compare a b.
Proof. induction a as [|x a IH]; intros [|y b]; reflexivity. Qed.

Lemma String_leb_trans a b c :
  String.leb a b = true → String.leb b c = true → String.leb a c = true.
Proof.
  unfold String.leb.
  destruct (String.compare a b) eqn:Hab; [| |discriminate].
  - by apply String.compare_eq_iff in Hab as ->.
  - destruct (String.compare b c) eqn:Hbc; [| |discriminate]; intros _ _.
    + apply String.compare_eq_iff in Hbc as <-. by rewrite Hab.
    + rewrite String_compare_OT in *.
      assert (Hac : String_as_OT.lt a c) by (by transitivity b).
      unfold String_as_OT.lt in Hac. by rewrite Hac.
Qed.

Lemma insertByName_perm c l : insertByName c l ≡ₚ c :: l.
Proof.
  induction l as [|d l IH]; simpl; [done|].
  destruct (String.leb (name c) (name d)); [done|].
  rewrite IH. apply Permutation_swap.
Qed.

Lemma sortByName_perm l : sortByName l ≡ₚ l.
Proof.
  induction l as [|c l IH]; simpl; [done|].
  by rewrite insertByName_perm, IH.
Qed.

Lemma insertByName_sorted c l :
  StronglySorted name_le l → StronglySorted name_le (insertByName c l).
Proof.
  induction 1 as [|d l Hl IH Hd]; simpl.
  - by repeat constructor.
  - destruct (String.leb (name c) (name d)) eqn:Hcd.
    + constructor; [by constructor|]. constructor; [done|].
      eapply Forall_impl; [exact Hd|]. intros e Hde.
      unfold name_le in *. by eapply String_leb_trans.
    + constructor; [done|]. rewrite insertByName_perm. constructor; [|done].
      unfold name_le. destruct (String.leb_total (name c) (name d)); congruence.
Qed.

Lemma sortByName_sorted l : StronglySorted name_le (sortByName l).
Proof.
  induction l as [|c l IH]; simpl; [constructor|]. by apply insertByName_sorted.
Qed.

Lemma sortByName_signature_sorted l :
  StronglySorted signature_le (signature <$> sortByName l).
Proof.
  eapply StronglySorted_fmap; [|apply sortByName_sorted]. done.
Qed.

Lemma mismatch_false c d : mismatch (c, d) = false ↔ signature c = signature d.
Proof.
  unfold mismatch, signature. simpl.
  rewrite orb_false_iff, !negb_false_iff, !bool_decide_eq_true.
  split; [by intros [-> ->]|]. by intros [= -> ->].
Qed.

Lemma count_mismatch_zip l1 : ∀ l2,
  length l1 = length l2 →
  (List_count mismatch (zip l1 l2) = 0 ↔ signature <$> l1 = signature <$> l2).
Proof.
  unfold List_count.
  induction l1 as [|c l1 IH]; intros [|d l2] Hlen; try done.
  injection Hlen as Hlen. specialize (IH l2 Hlen).
  rewrite !fmap_cons. cbn [zip_with List.filter].
  destruct (mismatch (c, d)) eqn:Hm.
  - split; [done|]. intros Heq.
    assert (Hs : signature c = signature d) by congruence.
    apply mismatch_false in Hs. congruence.
  - apply mismatch_false in Hm. rewrite IH, Hm. split; [by intros ->|].
    intros Heq. congruence.
Qed.

Lemma equals_true_iff this that :
  equals this that = true ↔
  signature <$> sortByName (columns this) = signature <$> sortByName (columns that).
Proof.
  unfold equals. rewrite andb_true_iff, !bool_decide_eq_true. split.
  - intros [Hlen Hcount]. apply count_mismatch_zip; [|done].
    by rewrite !sortByName_perm.
  - intros Heq.
    assert (Hlen : length (sortByName (columns this)) = length (sortByName (columns that))).
    { by rewrite <- (length_fmap signature), Heq, length_fmap. }
    split.
    + by rewrite !sortByName_perm in Hlen.
    + symmetry. by apply count_mismatch_zip.
Qed.

(** C3 (as amended).  Two column sets holding the same multiset of
    (name, dataType) pairs, in any declaration orders, are equal provided no
    name is declared with two different data types (as when names are
    unique); and two column sets whose multisets of pairs differ are
    unequal. *)
Theorem equals_order_independent (this that : t) :
  (signature <$> columns this ≡ₚ signature <$> columns that →
   nameDeterminesType (columns this) →
   equals this that = true)
  ∧ (¬ signature <$> columns this ≡ₚ signature <$> columns that →
     equals this that = false).
Proof.
  split.
  - intros Hperm Hdet. apply equals_true_iff.
    apply (StronglySorted_unique_strong signature_le);
      [|apply sortByName_signature_sorted..|by rewrite !sortByName_perm].
    intros x1 x2 Hx1 Hx2 H12 H21.
    rewrite sortByName_perm in Hx1. rewrite sortByName_perm, <- Hperm in Hx2.
    apply list_elem_of_fmap in Hx1 as (c & -> & Hc).
    apply list_elem_of_fmap in Hx2 as (d & -> & Hd).
    unfold signature_le, signature in *. simpl in *.
    assert (Hn : name c = name d) by by apply String.leb_antisym.
    by rewrite Hn, (Hdet c d Hc Hd Hn).
  - intros Hnperm. destruct (equals this that) eqn:Heq; [|done].
    destruct Hnperm. apply equals_true_iff in Heq.
    by rewrite <- (sortByName_perm (columns this)), Heq, sortByName_perm.
Qed.

Lemma equals_order_independent_witness :
  equals (new [aInt; bLong]) (new [bLong; aInt]) = true
  ∧ equals (new [aInt; bLong]) (new [aString; bLong]) = false.
Proof.
  split.
  - apply (equals_order_independent (new [aInt; bLong]) (new [bLong; aInt])).
    + apply Permutation_swap.
    + intros c d Hc Hd Hn. simpl in Hc, Hd.
      rewrite !elem_of_cons, elem_of_nil in Hc, Hd.
      destruct Hc as [->|[->|[]]], Hd as [->|[->|[]]]; done.
  - apply (equals_order_independent (new [aInt; bLong]) (new [aString; bLong])).
    intros Hperm. apply Permutation_cons_inv_r in Hperm as (k1 & k2 & Hk & _).
    destruct k1 as [|? [|? [|? ?]]]; discriminate.
Defined.

(** C3, counterexample.  A name declared with two data types: the two
    column sets hold the same pairs, in opposite orders; the stable sort by
    name keeps each declaration order and [equals] is false. *)
Lemma equals_counterexample :
  signature <$> columns (addColumn aString (new [aInt]))
    ≡ₚ signature <$> columns (addColumn aInt (new [aString]))
  ∧ equals (addColumn aString (new [aInt])) (addColumn aInt (new [aString])) = false.
Proof. split; [apply Permutation_swap | reflexivity]. Qed.

End ViewPortColumns_properties.

(** ** [TableDefs] and [ModuleFactoryNode] *)

Section ModuleFactory_properties.
Context `{ServerApi}.
Import ModuleFactoryNode.

(** C5.  [get] returns a realized table definition of the given name when
    there is one (the first, in realization order), and fails -- with the
    [NoSuchElementException] of [Option.get], the unknown-table error -- when
    no realized definition has that name. *)
Theorem TableDefs_get_by_name (n : string) (tds : TableDefs.t) :
  ((∃ td, td ∈ TableDefs.realizedTableDefs tds ∧ TableDef_name td = n) →
   ∃ td l1 l2,
     TableDefs.get n tds = Ok td
     ∧ TableDefs.realizedTableDefs tds = l1 ++ td :: l2
     ∧ TableDef_name td = n
     ∧ ∀ d, d ∈ l1 → TableDef_name d ≠ n)
  ∧ ((∀ td, td ∈ TableDefs.realizedTableDefs tds → TableDef_name td ≠ n) →
     TableDefs.get n tds = Throw (NoSuchElementException "None.get")).
Proof.
  unfold TableDefs.get. split.
  - intros (td & Htd & Hn).
    destruct (List.find _ (TableDefs.realizedTableDefs tds)) as [td'|] eqn:Hfind.
    + apply find_Some_first in Hfind as (l1 & l2 & Hl & Hp & Hl1).
      exists td', l1, l2. split_and!; [done..| |].
      * by apply bool_decide_eq_true in Hp.
      * intros d Hd. specialize (Hl1 d Hd). by apply bool_decide_eq_false in Hl1.
    + rewrite find_None_all in Hfind. specialize (Hfind td Htd).
      by apply bool_decide_eq_false in Hfind.
  - intros Hall.
    destruct (List.find _ (TableDefs.realizedTableDefs tds)) as [td'|] eqn:Hfind; [|done].
    apply find_Some_first in Hfind as (l1 & l2 & Hl & Hp & _).
    apply bool_decide_eq_true in Hp. destruct (Hall td'); [|done].
    rewrite Hl. apply elem_of_app. right. left.
Qed.

Lemma builderStep_frame node call :
  TableDefs.realizedTableDefs (tableDefs (builderStep node call))
    = TableDefs.realizedTableDefs (tableDefs node)
  ∧ TableDefs.tableDefs (tableDefs node)
      `prefix_of` TableDefs.tableDefs (tableDefs (builderStep node call))
  ∧ TableDefs.joinDefs (tableDefs node)
      `prefix_of` TableDefs.joinDefs (tableDefs (builderStep node call))
  ∧ rpc node `prefix_of` rpc (builderStep node call)
  ∧ vsName (builderStep node call) = vsName node
  ∧ staticServedResources node `prefix_of` staticServedResources (builderStep node call).
Proof.
  destruct call; simpl; split_and!; try done; by apply prefix_app_r.
Qed.

Lemma builderRun_frame calls : ∀ node,
  TableDefs.realizedTableDefs (tableDefs (builderRun calls node))
    = TableDefs.realizedTableDefs (tableDefs node)
  ∧ TableDefs.tableDefs (tableDefs node)
      `prefix_of` TableDefs.tableDefs (tableDefs (builderRun calls node))
  ∧ TableDefs.joinDefs (tableDefs node)
      `prefix_of` TableDefs.joinDefs (tableDefs (builderRun calls node))
  ∧ rpc node `prefix_of` rpc (builderRun calls node)
  ∧ vsName (builderRun calls node) = vsName node
  ∧ staticServedResources node `prefix_of` staticServedResources (builderRun calls node).
Proof.
  unfold builderRun. induction calls as [|call calls IH]; intros node; simpl.
  - done.
  - destruct (IH (builderStep node call)) as (Hr & Ht & Hj & Hrpc & Hn & Hs).
    destruct (builderStep_frame node call) as (Hr' & Ht' & Hj' & Hrpc' & Hn' & Hs').
    split_and!; [congruence|by etrans..|congruence|by etrans].
Qed.

(** C7.  Each builder method returns a registry value that is the receiver
    with one list extended at its end by the added element; every other field
    of the result is the receiver's.  The receiver is an immutable value that
    the method only reads: whatever calls follow, the value they produce
    begins with the receiver's lists and keeps its name. *)
Theorem builders_extend_one_field (node : t) :
  (∀ tableDef func,
     addTable tableDef func node =
       {| tableDefs :=
            {| TableDefs.realizedTableDefs := TableDefs.realizedTableDefs (tableDefs node);
               TableDefs.tableDefs := TableDefs.tableDefs (tableDefs node) ++ [(tableDef, func)];
               TableDefs.joinDefs := TableDefs.joinDefs (tableDefs node) |};
          rpc := rpc node;
          vsName := vsName node;
          staticServedResources := staticServedResources node |})
  ∧ (∀ func,
       addJoinTable func node =
         {| tableDefs :=
              {| TableDefs.realizedTableDefs := TableDefs.realizedTableDefs (tableDefs node);
                 TableDefs.tableDefs := TableDefs.tableDefs (tableDefs node);
                 TableDefs.joinDefs := TableDefs.joinDefs (tableDefs node) ++ [func] |};
            rpc := rpc node;
            vsName := vsName node;
            staticServedResources := staticServedResources node |})
  ∧ (∀ rpcFunc,
       addRpcHandler rpcFunc node =
         {| tableDefs := tableDefs node;
            rpc := rpc node ++ [rpcFunc];
            vsName := vsName node;
            staticServedResources := staticServedResources node |})
  ∧ (∀ uri p browse,
       addStaticResource uri p browse node =
         {| tableDefs := tableDefs node;
            rpc := rpc node;
            vsName := vsName node;
            staticServedResources :=
              staticServedResources node
                ++ [{| uriDirectory := uri; path := p; canBrowse := browse |}] |})
  ∧ (∀ calls,
       let node' := builderRun calls node in
       TableDefs.realizedTableDefs (tableDefs node')
         = TableDefs.realizedTableDefs (tableDefs node)
       ∧ TableDefs.tableDefs (tableDefs node) `prefix_of` TableDefs.tableDefs (tableDefs node')
       ∧ TableDefs.joinDefs (tableDefs node) `prefix_of` TableDefs.joinDefs (tableDefs node')
       ∧ rpc node `prefix_of` rpc node'
       ∧ vsName node' = vsName node
       ∧ staticServedResources node `prefix_of` staticServedResources node').
Proof.
  split_and!; try reflexivity.
  intros calls node'. apply builderRun_frame.
Qed.

Lemma builderRun_rpc calls : ∀ node,
  rpc (builderRun calls node) = rpc node ++ registeredHandlers calls.
Proof.
  unfold builderRun.
  induction calls as [|call calls IH]; intros node; simpl.
  - by rewrite app_nil_r.
  - rewrite IH. destruct call; simpl; try done. by rewrite <- app_assoc.
Qed.

Lemma asModule_rpcHandlerUnrealized node m :
  asModule node = Ok m →
  ViewServerModule.rpcHandlerUnrealized m = List_head (rpc node).
Proof.
  unfold asModule.
  destruct (realizeJoins _ _) as [tds|e]; simpl; [|done]. by intros [= <-].
Qed.

(** C6.  A module assembled from [withNamespace] by any sequence of builder
    calls with at least one [addRpcHandler] realizes the first registered
    handler only: [rpcHandlerUnrealized] is the head of the handler list,
    however many handlers follow. *)
Theorem rpcHandlerUnrealized_first_only (ns : string) (calls : list BuilderCall)
    (first : VuuServer → RpcHandler) (others : list (VuuServer → RpcHandler))
    (m : ViewServerModule.t) :
  registeredHandlers calls = first :: others →
  asModule (builderRun calls (ModuleFactory.withNamespace ns)) = Ok m →
  ViewServerModule.rpcHandlerUnrealized m = Ok first.
Proof.
  intros Hreg Hm. rewrite (asModule_rpcHandlerUnrealized _ _ Hm).
  by rewrite builderRun_rpc, Hreg.
Qed.

(** *** The realization loop *)

Lemma realizedInOrder_nil bases funcs : realizedInOrder bases funcs [].
Proof. intros i r Hi. by rewrite lookup_nil in Hi. Qed.

Lemma realizedInOrder_cons bases func funcs r results :
  realizedInOrder bases (func :: funcs) (r :: results) ↔
  func bases = Ok r ∧ realizedInOrder (bases ++ [JoinTableDef_upcast r]) funcs results.
Proof.
  unfold realizedInOrder. split.
  - intros Hall. split.
    + destruct (Hall 0 r eq_refl) as (g & [= <-] & Hg).
      simpl in Hg. by rewrite app_nil_r in Hg.
    + intros i r' Hi. destruct (Hall (S i) r' Hi) as (g & Hgi & Hg).
      exists g. split; [done|]. simpl in Hg. by rewrite <- app_assoc.
  - intros [Hfunc Hall] [|i] r' Hi; simpl in Hi.
    + injection Hi as <-. exists func. split; [done|]. simpl. by rewrite app_nil_r.
    + destruct (Hall i r' Hi) as (g & Hgi & Hg).
      exists g. split; [done|]. simpl. by rewrite <- app_assoc in Hg.
Qed.

Lemma realizeJoins_cons_Ok func funcs tds r :
  func (TableDefs.realizedTableDefs tds) = Ok r →
  realizeJoins (func :: funcs) tds
  = realizeJoins funcs (TableDefs.addRealized (JoinTableDef_upcast r) tds).
Proof. intros Hr. cbn [realizeJoins]. by rewrite Hr. Qed.

Lemma realizeJoins_cons_Throw func funcs tds e :
  func (TableDefs.realizedTableDefs tds) = Throw e →
  realizeJoins (func :: funcs) tds = Throw e.
Proof. intros Hr. cbn [realizeJoins]. by rewrite Hr. Qed.

Lemma realizeJoins_Ok funcs : ∀ tds tds',
  realizeJoins funcs tds = Ok tds' ↔
  ∃ results,
    length results = length funcs
    ∧ realizedInOrder (TableDefs.realizedTableDefs tds) funcs results
    ∧ tds' = {| TableDefs.realizedTableDefs :=
                  TableDefs.realizedTableDefs tds ++ (JoinTableDef_upcast <$> results);
                TableDefs.tableDefs := TableDefs.tableDefs tds;
                TableDefs.joinDefs := TableDefs.joinDefs tds |}.
Proof.
  induction funcs as [|func funcs IH]; intros tds tds'.
  - simpl. split.
    + intros [= <-]. exists []. split_and!; [done|apply realizedInOrder_nil|].
      destruct tds; simpl. by rewrite app_nil_r.
    + intros ([|] & Hlen & _ & ->); [|done].
      destruct tds; simpl. by rewrite app_nil_r.
  - destruct (func (TableDefs.realizedTableDefs tds)) as [r|e] eqn:Hfunc.
    + rewrite (realizeJoins_cons_Ok _ _ _ _ Hfunc), IH. simpl. split.
      * intros (results & Hlen & Hall & ->). exists (r :: results).
        split_and!; [by simpl; rewrite Hlen|by apply realizedInOrder_cons|].
        by rewrite fmap_cons, <- app_assoc.
      * intros ([|r' results] & Hlen & Hall & ->); [done|].
        apply realizedInOrder_cons in Hall as [Hr Hall].
        assert (r' = r) as -> by congruence.
        exists results. split_and!; [by injection Hlen|done|].
        by rewrite fmap_cons, <- app_assoc.
    + rewrite (realizeJoins_cons_Throw _ _ _ _ Hfunc).
      split; [done|]. intros ([|r' results] & Hlen & Hall & _); [done|].
      apply realizedInOrder_cons in Hall as [Hr _]. congruence.
Qed.

Lemma realizeJoins_Throw results : ∀ funcs tds func e,
  realizedInOrder (TableDefs.realizedTableDefs tds) funcs results →
  funcs !! length results = Some func →
  func (TableDefs.realizedTableDefs tds ++ (JoinTableDef_upcast <$> results)) = Throw e →
  realizeJoins funcs tds = Throw e.
Proof.
  induction results as [|r results IH]; intros funcs tds func e Hall Hfunc Hthrow.
  - destruct funcs as [|func' funcs]; [done|]. injection Hfunc as ->.
    simpl in Hthrow. rewrite app_nil_r in Hthrow. by apply realizeJoins_cons_Throw.
  - destruct funcs as [|func' funcs]; [done|].
    apply realizedInOrder_cons in Hall as [Hr Hall].
    rewrite (realizeJoins_cons_Ok _ _ _ _ Hr).
    apply (IH _ _ func); [done..|].
    simpl. by rewrite <- app_assoc.
Qed.

(** C2.  [asModule] calls the pending join functions in declaration order,
    each with the list realized so far -- the base table definitions followed
    by the results of the join functions before it -- and appends each result
    before the next call.  It succeeds exactly when every call does, the
    module's definitions then being the bases followed by all results; the
    first call that fails makes [asModule] fail; in particular a join function
    that depends on a name absent from the list realized so far fails it,
    whatever is realized later. *)
Theorem asModule_realizes_in_declaration_order (node : t) :
  let bases := (TableDefs.tableDefs (tableDefs node)).*1 in
  let funcs := TableDefs.joinDefs (tableDefs node) in
  (∀ m, asModule node = Ok m →
     ∃ results,
       length results = length funcs
       ∧ realizedInOrder bases funcs results
       ∧ ViewServerModule.tableDefs m = bases ++ (JoinTableDef_upcast <$> results))
  ∧ (∀ results,
       length results = length funcs →
       realizedInOrder bases funcs results →
       ∃ m, asModule node = Ok m
            ∧ ViewServerModule.tableDefs m = bases ++ (JoinTableDef_upcast <$> results))
  ∧ (∀ results func e,
       realizedInOrder bases funcs results →
       funcs !! length results = Some func →
       func (bases ++ (JoinTableDef_upcast <$> results)) = Throw e →
       asModule node = Throw e)
  ∧ (∀ results func n,
       realizedInOrder bases funcs results →
       funcs !! length results = Some func →
       dependsOn func n →
       (∀ td, td ∈ bases ++ (JoinTableDef_upcast <$> results) → TableDef_name td ≠ n) →
       asModule node = Throw (NoSuchElementException "None.get")).
Proof.
  intros bases funcs.
  assert (Hthrow : ∀ results func e,
             realizedInOrder bases funcs results →
             funcs !! length results = Some func →
             func (bases ++ (JoinTableDef_upcast <$> results)) = Throw e →
             asModule node = Throw e).
  { intros results func e Hall Hfunc He. unfold asModule.
    pose proof (realizeJoins_Throw results funcs
                  {| TableDefs.realizedTableDefs := bases;
                     TableDefs.tableDefs := []; TableDefs.joinDefs := [] |}
                  func e Hall Hfunc He) as Hloop.
    unfold bases, funcs in Hloop. by rewrite Hloop. }
  split_and!; [| |exact Hthrow|].
  - intros m. unfold asModule.
    destruct (realizeJoins _ _) as [tds'|e] eqn:Hloop; [|done].
    apply realizeJoins_Ok in Hloop as (results & Hlen & Hall & ->).
    intros [= <-]. by exists results.
  - intros results Hlen Hall.
    assert (Hok : realizeJoins funcs
              {| TableDefs.realizedTableDefs := bases;
                 TableDefs.tableDefs := []; TableDefs.joinDefs := [] |}
            = Ok {| TableDefs.realizedTableDefs := bases ++ (JoinTableDef_upcast <$> results);
                    TableDefs.tableDefs := []; TableDefs.joinDefs := [] |}).
    { apply realizeJoins_Ok. by exists results. }
    unfold asModule. unfold bases, funcs in Hok. rewrite Hok. by eexists.
  - intros results func n Hall Hfunc Hdep Hfresh.
    apply (Hthrow results func); [done..|]. apply Hdep.
    unfold TableDefs.get, TableDefs.ofRealized. simpl.
    destruct (List.find _ _) as [td|] eqn:Hfind; [|done].
    apply find_Some_first in Hfind as (l1 & l2 & Hl & Hp & _).
    apply bool_decide_eq_true in Hp. destruct (Hfresh td); [|done].
    rewrite Hl. apply elem_of_app. right. left.
Qed.

End ModuleFactory_properties.

(** ** The module properties on the example modules *)

Lemma TableDefs_get_by_name_witness :
  @TableDefs.get namesApi "prices" (@TableDefs.ofRealized namesApi ["orders"; "prices"])
    = @Ok (@TableDef namesApi) "prices"
  ∧ @TableDefs.get namesApi "trades" (@TableDefs.ofRealized namesApi ["orders"; "prices"])
    = Throw (NoSuchElementException "None.get").
Proof.
  split.
  - destruct (@TableDefs_get_by_name namesApi "prices"
                (@TableDefs.ofRealized namesApi ["orders"; "prices"])) as [Hfound _].
    destruct Hfound as (td & l1 & l2 & Hget & _ & Hn & _).
    + exists "prices". split; [|reflexivity]. right. left.
    + rewrite Hget. f_equal. exact Hn.
  - apply (@TableDefs_get_by_name namesApi "trades").
    intros td Htd. simpl in Htd. rewrite !elem_of_cons, elem_of_nil in Htd.
    destruct Htd as [->|[->|[]]]; discriminate.
Defined.

Lemma rpcHandlerUnrealized_first_only_witness :
  ∃ m first,
    @ModuleFactoryNode.asModule namesApi orderedNode = Ok m
    ∧ ViewServerModule.rpcHandlerUnrealized m = Ok first
    ∧ first tt = 1.
Proof.
  destruct (@ModuleFactoryNode.asModule namesApi orderedNode) as [m|e] eqn:Hm;
    [|vm_compute in Hm; discriminate].
  exists m, (fun _ => 1). split; [reflexivity|]. split; [|reflexivity].
  apply (@rpcHandlerUnrealized_first_only namesApi "TEST" orderedCalls
           (fun _ => 1) [fun _ => 2] m); [reflexivity | exact Hm].
Defined.

Lemma asModule_realizes_in_declaration_order_witness :
  (∃ m, @ModuleFactoryNode.asModule namesApi orderedNode = Ok m
        ∧ ViewServerModule.tableDefs m
          = ["orders"; "prices"; "orderPrices"; "orderPricesOrders"])
  ∧ @ModuleFactoryNode.asModule namesApi exchangedNode
    = Throw (NoSuchElementException "None.get").
Proof.
  split.
  - destruct (@asModule_realizes_in_declaration_order namesApi orderedNode)
      as (_ & Hok & _).
    apply (Hok ["orderPrices"; "orderPricesOrders"]); [reflexivity|].
    intros [|[|i]] r Hi; simpl in Hi.
    + injection Hi as <-. eexists. split; reflexivity.
    + injection Hi as <-. eexists. split; reflexivity.
    + by rewrite lookup_nil in Hi.
  - destruct (@asModule_realizes_in_declaration_order namesApi exchangedNode)
      as (_ & _ & _ & Hdep).
    apply (Hdep [] (@joinOf namesApi "orderPrices" "orders" "orderPricesOrders")
             "orderPrices").
    + intros i r Hi. by rewrite lookup_nil in Hi.
    + reflexivity.
    + intros realized e He. unfold joinOf. by rewrite He.
    + intros td Htd. simpl in Htd. rewrite !elem_of_cons, elem_of_nil in Htd.
      destruct Htd as [->|[->|[]]]; discriminate.
Defined.


(** * Further properties of [ViewPortColumns] *)

Section ViewPortColumns_further.
Import ViewPortColumns.

Lemma find_app_first {A} (p : A → bool) (l1 l2 : list A) :
  List.find p (l1 ++ l2)
  = match List.find p l1 with Some x => Some x | None => List.find p l2 end.
Proof.
  induction l1 as [|a l1 IH]; simpl; [done|]. by destruct (p a).
Qed.

(** X1.  [equals] is an equivalence relation on column sets: reflexive,
    symmetric and transitive. *)
Theorem equals_equivalence :
  (∀ a, equals a a = true)
  ∧ (∀ a b, equals a b = equals b a)
  ∧ (∀ a b c, equals a b = true → equals b c = true → equals a c = true).
Proof.
  split_and!.
  - intros a. by apply equals_true_iff.
  - intros a b. apply Bool.eq_iff_eq_true. rewrite !equals_true_iff. by split.
  - intros a b c. rewrite !equals_true_iff. congruence.
Qed.

Lemma equals_equivalence_witness :
  equals (new [aInt; bLong]) (addColumn aInt (new [bLong])) = true.
Proof.
  destruct equals_equivalence as (_ & _ & Htrans).
  apply (Htrans _ (new [bLong; aInt])); reflexivity.
Defined.

(** With distinct names, sorting by name forgets the declaration order. *)
Lemma sortByName_perm_unique l1 l2 :
  l1 ≡ₚ l2 → NoDup (name <$> l1) → sortByName l1 = sortByName l2.
Proof.
  intros Hperm Hnodup.
  apply (StronglySorted_unique_strong name_le);
    [|apply sortByName_sorted..|by rewrite !sortByName_perm].
  intros c d Hc Hd Hcd Hdc.
  rewrite sortByName_perm in Hc. rewrite sortByName_perm, <- Hperm in Hd.
  assert (Hn : name c = name d) by by apply String.leb_antisym.
  apply list_elem_of_lookup in Hc as [i Hi]. apply list_elem_of_lookup in Hd as [j Hj].
  assert (i = j) as ->; [|congruence].
  apply (NoDup_lookup _ i j (name c) Hnodup); rewrite list_lookup_fmap.
  - by rewrite Hi.
  - by rewrite Hj, Hn.
Qed.

Section with_hashing.
Context `{ColumnHashing}.

(** X2.  [hashCode] does not depend on the declaration order of the columns
    when their names are distinct: two column sets holding the same columns
    have the same hash code, whatever [Column.hashCode] and the list hash
    are. *)
Theorem hashCode_order_independent (this that : t) :
  columns this ≡ₚ columns that →
  NoDup (name <$> columns this) →
  ViewPortColumns_hashCode this = ViewPortColumns_hashCode that.
Proof.
  intros Hperm Hnodup. unfold ViewPortColumns_hashCode.
  by rewrite (sortByName_perm_unique _ _ Hperm Hnodup).
Qed.

(** X3.  [hashCode] agrees with [equals] as soon as the hash code of a column
    is determined by its name and data type: column sets that are [equals]
    then have equal hash codes. *)
Theorem hashCode_consistent_with_equals (this that : t) :
  (∀ c d, signature c = signature d → Column_hashCode c = Column_hashCode d) →
  equals this that = true →
  ViewPortColumns_hashCode this = ViewPortColumns_hashCode that.
Proof.
  intros Hsig Heq. apply equals_true_iff in Heq.
  unfold ViewPortColumns_hashCode. f_equal.
  revert Heq. generalize (sortByName (columns that)).
  induction (sortByName (columns this)) as [|c l IH]; intros [|d l'] Heq;
    try done.
  rewrite !fmap_cons in *. injection Heq as Hn Hd Hl.
  f_equal; [|by apply IH]. apply Hsig. unfold signature. congruence.
Qed.

End with_hashing.

Lemma hashCode_order_independent_witness :
  @ViewPortColumns_hashCode exampleHashing (new [aInt; bLong])
  = @ViewPortColumns_hashCode exampleHashing (new [bLong; aInt]).
Proof.
  apply (@hashCode_order_independent exampleHashing).
  - apply Permutation_swap.
  - simpl. repeat constructor; rewrite ?elem_of_cons, ?elem_of_nil; intuition discriminate.
Defined.

Lemma hashCode_consistent_with_equals_witness :
  @ViewPortColumns_hashCode exampleHashing (new [qtyColumn; aInt])
  = @ViewPortColumns_hashCode exampleHashing
      (new [aInt; {| name := "qty"; dataType := TInt;
                     calculatedExpression := Some (fun _ => ANull) |}]).
Proof.
  apply (@hashCode_consistent_with_equals exampleHashing).
  - intros c d Hs. injection Hs as Hn Hd. cbn [Column_hashCode exampleHashing].
    by rewrite Hn, Hd.
  - reflexivity.
Defined.

Lemma columnsRun_columns calls : ∀ vpc,
  columns (columnsRun calls vpc) = columns vpc ++ addedColumns calls.
Proof.
  unfold columnsRun. induction calls as [|call calls IH]; intros vpc; simpl.
  - by rewrite app_nil_r.
  - rewrite IH. destruct call as [c|key row]; simpl.
    + by rewrite <- app_assoc.
    + by rewrite pullRow_snd, force_hasCalculatedColumn_columns.
Qed.

(** X4.  The column list only grows, and only by [addColumn]: after any
    sequence of [addColumn] and [pullRow] calls it is the former list followed
    by the added columns in call order, and [count] has grown by the number of
    [addColumn] calls.  [pullRow] never changes the columns. *)
Theorem columns_append_only (calls : list ColumnsCall) (vpc : t) :
  getColumns (columnsRun calls vpc) = getColumns vpc ++ addedColumns calls
  ∧ count (columnsRun calls vpc) = count vpc + length (addedColumns calls)
  ∧ ∀ key row, getColumns (pullRow key row vpc).2 = getColumns vpc.
Proof.
  unfold getColumns, count. rewrite columnsRun_columns, length_app.
  split_and!; [done..|]. intros key row.
  by rewrite pullRow_snd, force_hasCalculatedColumn_columns.
Qed.

Section lookups.
Context `{ViewPortColumnCreator}.

(** X5.  Lookups are stable under growth: once [getColumnForName] resolves a
    name to a column it resolves it to that same column after any later
    calls, and a name that [columnExists] keeps existing. *)
Theorem lookups_stable (n : string) (calls : list ColumnsCall) (vpc : t) :
  (∀ c, getColumnForName n vpc = Some c →
        getColumnForName n (columnsRun calls vpc) = Some c)
  ∧ (columnExists n vpc = true → columnExists n (columnsRun calls vpc) = true).
Proof.
  unfold getColumnForName, columnExists. rewrite columnsRun_columns. split.
  - intros c Hc. by rewrite find_app_first, Hc.
  - intros Hex. by rewrite existsb_app, Hex.
Qed.

(** X6.  [getColumnForName] finds a column exactly when [columnExists] holds
    of the evaluated name; for a name that is not in the calculated-column
    syntax the two methods agree on the name itself. *)
Theorem getColumnForName_Some_iff_columnExists (n : string) (vpc : t) :
  (is_Some (getColumnForName n vpc) ↔ columnExists (getEvaluatedName n) vpc = true)
  ∧ (isCalculatedColumn n = false →
     (is_Some (getColumnForName n vpc) ↔ columnExists n vpc = true)).
Proof.
  assert (Hgen : is_Some (getColumnForName n vpc)
                 ↔ columnExists (getEvaluatedName n) vpc = true).
  { unfold getColumnForName, columnExists.
    induction (columns vpc) as [|c l IH]; simpl.
    - split; [by intros [? ?]|done].
    - destruct (bool_decide (name c = getEvaluatedName n)); simpl; [|done].
      split; [done|by eexists]. }
  split; [done|]. intros Hplain. rewrite Hgen.
  unfold getEvaluatedName. by rewrite Hplain.
Qed.

(** X7.  When a name is declared twice the two readers disagree on which
    declaration counts: [getColumnForName] returns the first column of the
    name, the row built by [pullRowAlwaysFilter] holds the value of the
    last. *)
Theorem duplicate_name_first_and_last (n key : string) (row : RowData) (vpc : t)
    (l1 l2 l3 : list Column) (c d : Column) :
  columns vpc = l1 ++ c :: l2 ++ d :: l3 →
  name c = n → name d = n →
  isCalculatedColumn n = false →
  (∀ x, x ∈ l1 → name x ≠ n) →
  (∀ x, x ∈ l3 → name x ≠ n) →
  getColumnForName n vpc = Some c
  ∧ RowData_data (pullRowAlwaysFilter key row vpc) !! n = Some (RowData_get row d).
Proof.
  intros Hcols Hc Hd Hplain Hl1 Hl3. split.
  - unfold getColumnForName, getEvaluatedName. rewrite Hplain.
    apply find_Some_first. exists l1, (l2 ++ d :: l3). split_and!; [done| |].
    + by apply bool_decide_eq_true.
    + intros x Hx. apply bool_decide_eq_false. by apply Hl1.
  - destruct (pullRowAlwaysFilter_isProjection key row vpc) as (data & Hres & _ & Hlast).
    rewrite Hres. simpl. rewrite <- Hd. apply (Hlast (l1 ++ c :: l2) d l3).
    + by rewrite Hcols, <- app_assoc.
    + intros (x & Hx & Hin)%list_elem_of_fmap. apply (Hl3 x Hin). congruence.
Qed.

End lookups.

Lemma lookups_stable_witness :
  @getColumnForName colonSyntax "a" (columnsRun [CallAddColumn aString] (new [aInt]))
    = Some aInt
  ∧ columnExists "a" (columnsRun [CallAddColumn aString] (new [aInt])) = true.
Proof.
  destruct (@lookups_stable colonSyntax "a" [CallAddColumn aString] (new [aInt]))
    as [Hget Hex].
  split; [by apply Hget | by apply Hex].
Defined.

Lemma getColumnForName_Some_iff_columnExists_witness :
  is_Some (@getColumnForName colonSyntax "qty" (new [qtyColumn; calcColumn])).
Proof.
  destruct (@getColumnForName_Some_iff_columnExists colonSyntax "qty"
              (new [qtyColumn; calcColumn])) as [_ Hplain].
  by apply Hplain.
Defined.

Lemma duplicate_name_first_and_last_witness :
  @getColumnForName colonSyntax "a" (new [aInt; bLong; aString]) = Some aInt
  ∧ RowData_data (pullRowAlwaysFilter "1" qtyRow (new [aInt; bLong; aString])) !! "a"
    = Some (RowData_get qtyRow aString).
Proof.
  apply (@duplicate_name_first_and_last colonSyntax "a" "1" qtyRow
           (new [aInt; bLong; aString]) [] [bLong] [] aInt aString);
    try reflexivity; by intros x ?%elem_of_nil.
Defined.

(** *** The memoised detection on the instances a program can reach *)

Lemma columnsStep_memoNeverOverstates vpc call :
  memoNeverOverstates vpc → memoNeverOverstates (columnsStep vpc call).
Proof.
  unfold memoNeverOverstates. intros Hinv. destruct call as [c|key row]; simpl.
  - intros Hm. rewrite existsb_app, (Hinv Hm). done.
  - rewrite pullRow_snd. unfold force_hasCalculatedColumn.
    destruct (hasCalculatedColumn vpc) as [b|] eqn:Hm; simpl.
    + rewrite Hm. exact Hinv.
    + by intros [= ?].
Qed.

Lemma columnsRun_memoNeverOverstates calls : ∀ vpc,
  memoNeverOverstates vpc → memoNeverOverstates (columnsRun calls vpc).
Proof.
  unfold columnsRun. induction calls as [|call calls IH]; intros vpc Hinv; simpl.
  - done.
  - by apply IH, columnsStep_memoNeverOverstates.
Qed.

(** X8.  On every instance a program can reach -- a new instance after any
    sequence of [addColumn] and [pullRow] calls -- the stored detection never
    claims a calculated column that is not there.  So [pullRow] returns the
    source row itself whenever the column set has no calculated column, and in
    every case returns either the source row or its projection on the present
    columns. *)
Theorem pullRow_on_reachable (sourceColumns : list Column) (calls : list ColumnsCall)
    (key : string) (row : RowData) :
  let vpc := columnsRun calls (new sourceColumns) in
  memoNeverOverstates vpc
  ∧ (existsb isCalculated (columns vpc) = false → (pullRow key row vpc).1 = row)
  ∧ ((pullRow key row vpc).1 = row
     ∨ isProjection (columns vpc) key row (pullRow key row vpc).1).
Proof.
  intros vpc.
  assert (Hinv : memoNeverOverstates vpc).
  { apply columnsRun_memoNeverOverstates. by intros [=]. }
  split; [done|]. rewrite pullRow_fst. split.
  - intros Hnone. unfold force_hasCalculatedColumn.
    destruct (hasCalculatedColumn vpc) as [[]|] eqn:Hm; simpl; [|done|by rewrite Hnone].
    rewrite (Hinv Hm) in Hnone. done.
  - destruct (force_hasCalculatedColumn vpc).1; [right|by left].
    rewrite <- (force_hasCalculatedColumn_columns vpc).
    apply pullRowAlwaysFilter_isProjection.
Qed.

Lemma pullRow_on_reachable_witness :
  (pullRow "2" qtyRow
     (columnsRun [CallPullRow "1" qtyRow; CallAddColumn aInt] (new [qtyColumn]))).1
  = qtyRow.
Proof.
  destruct (pullRow_on_reachable [qtyColumn] [CallPullRow "1" qtyRow; CallAddColumn aInt]
              "2" qtyRow) as (_ & Hnone & _).
  by apply Hnone.
Defined.

(** X9.  If the first [pullRow] of an instance finds a calculated column,
    every later [pullRow] returns a projection on the columns of that later
    moment, the columns appended in between included. *)
Theorem pullRow_projects_after_detection (vpc : t) (key0 key : string)
    (row0 row : RowData) (calls : list ColumnsCall) :
  hasCalculatedColumn vpc = None →
  existsb isCalculated (columns vpc) = true →
  let later := columnsRun calls (pullRow key0 row0 vpc).2 in
  isProjection (columns vpc ++ addedColumns calls) key row (pullRow key row later).1.
Proof.
  intros Hm Hcalc later.
  assert (Hlater : hasCalculatedColumn later = Some true).
  { apply columnsRun_memo. rewrite pullRow_snd. unfold force_hasCalculatedColumn.
    by rewrite Hm, Hcalc. }
  assert (Hcols : columns later = columns vpc ++ addedColumns calls).
  { unfold later. by rewrite columnsRun_columns, pullRow_snd,
      force_hasCalculatedColumn_columns. }
  rewrite pullRow_fst. unfold force_hasCalculatedColumn. rewrite Hlater. simpl.
  rewrite <- Hcols. apply pullRowAlwaysFilter_isProjection.
Qed.

Lemma pullRow_projects_after_detection_witness :
  isProjection [calcColumn; qtyColumn] "2" qtyRow
    (pullRow "2" qtyRow
       (columnsRun [CallAddColumn qtyColumn]
          (pullRow "1" qtyRow (new [calcColumn])).2)).1.
Proof.
  apply (pullRow_projects_after_detection (new [calcColumn]) "1" "2" qtyRow qtyRow
           [CallAddColumn qtyColumn]); reflexivity.
Defined.

(** *** What [equals] looks at *)

Lemma insertByName_signature c c' : ∀ l l',
  signature c = signature c' →
  signature <$> l = signature <$> l' →
  signature <$> insertByName c l = signature <$> insertByName c' l'.
Proof.
  intros l l' Hc. assert (Hn : name c = name c') by (by injection Hc).
  revert l'. induction l as [|d l IH]; intros [|d' l'] Hl; try done.
  - simpl. by rewrite Hc.
  - rewrite !fmap_cons in Hl.
    assert (Hd : signature d = signature d') by congruence.
    assert (Hl' : signature <$> l = signature <$> l') by congruence.
    assert (Hdn : name d = name d') by (by injection Hd).
    simpl. rewrite <- Hn, <- Hdn. destruct (String.leb (name c) (name d)).
    + rewrite !fmap_cons. congruence.
    + rewrite !fmap_cons. f_equal; [done|]. by apply IH.
Qed.

Lemma sortByName_signature : ∀ l l',
  signature <$> l = signature <$> l' →
  signature <$> sortByName l = signature <$> sortByName l'.
Proof.
  induction l as [|c l IH]; intros [|c' l'] Hl; try done.
  rewrite !fmap_cons in Hl. simpl.
  apply insertByName_signature; [congruence|]. apply IH. congruence.
Qed.

(** X18.  [equals] reads the names and data types of the columns and nothing
    else: column sets whose lists of (name, dataType) pairs coincide are equal
    even when one declares a column as calculated and the other as physical,
    and a [pullRow] on either side, which may fill the memoised detection,
    never changes the outcome. *)
Theorem equals_reads_signatures_only (this that : t) :
  (signature <$> columns this = signature <$> columns that → equals this that = true)
  ∧ (∀ key row, equals (pullRow key row this).2 that = equals this that)
  ∧ (∀ key row, equals this (pullRow key row that).2 = equals this that).
Proof.
  split_and!.
  - intros Hsig. by apply equals_true_iff, sortByName_signature.
  - intros key row. unfold equals.
    by rewrite pullRow_snd, force_hasCalculatedColumn_columns.
  - intros key row. unfold equals.
    by rewrite pullRow_snd, force_hasCalculatedColumn_columns.
Qed.

Lemma equals_reads_signatures_only_witness :
  equals (new [qtyColumn; calcColumn])
         (new [qtyColumn; {| name := "calc"; dataType := TInt;
                             calculatedExpression := None |}]) = true.
Proof.
  by apply (equals_reads_signatures_only (new [qtyColumn; calcColumn])).
Defined.

End ViewPortColumns_further.

(** * Further properties of [TableDefs] and [ModuleFactoryNode] *)

Section ModuleFactory_further.
Context `{ServerApi}.
Import ModuleFactoryNode.

Lemma builderRun_node calls : ∀ node,
  builderRun calls node =
    {| tableDefs :=
         {| TableDefs.realizedTableDefs := TableDefs.realizedTableDefs (tableDefs node);
            TableDefs.tableDefs :=
              TableDefs.tableDefs (tableDefs node) ++ registeredTables calls;
            TableDefs.joinDefs :=
              TableDefs.joinDefs (tableDefs node) ++ registeredJoins calls |};
       rpc := rpc node ++ registeredHandlers calls;
       vsName := vsName node;
       staticServedResources := staticServedResources node ++ registeredResources calls |}.
Proof.
  unfold builderRun. induction calls as [|call calls IH]; intros node.
  - destruct node as [[] ? ? ?]. simpl. by rewrite !app_nil_r.
  - cbn [foldl]. rewrite IH. destruct call; simpl; by rewrite <- ?app_assoc.
Qed.

(** X10.  The builder accumulates each kind of registration in call order and
    nothing else: the node built from [withNamespace] holds the registered
    tables, joins, handlers and resources, each list in call order, under the
    given name.  Calls of different kinds therefore commute: two call
    sequences that register the same tables, joins, handlers and resources in
    the same relative orders build the same node. *)
Theorem builder_accumulates_by_kind (ns : string) :
  (∀ calls,
     builderRun calls (ModuleFactory.withNamespace ns) =
       {| tableDefs :=
            {| TableDefs.realizedTableDefs := [];
               TableDefs.tableDefs := registeredTables calls;
               TableDefs.joinDefs := registeredJoins calls |};
          rpc := registeredHandlers calls;
          vsName := ns;
          staticServedResources := registeredResources calls |})
  ∧ (∀ calls1 calls2,
       registeredTables calls1 = registeredTables calls2 →
       registeredJoins calls1 = registeredJoins calls2 →
       registeredHandlers calls1 = registeredHandlers calls2 →
       registeredResources calls1 = registeredResources calls2 →
       builderRun calls1 (ModuleFactory.withNamespace ns)
       = builderRun calls2 (ModuleFactory.withNamespace ns)).
Proof.
  assert (Hnode : ∀ calls,
     builderRun calls (ModuleFactory.withNamespace ns) =
       {| tableDefs :=
            {| TableDefs.realizedTableDefs := [];
               TableDefs.tableDefs := registeredTables calls;
               TableDefs.joinDefs := registeredJoins calls |};
          rpc := registeredHandlers calls;
          vsName := ns;
          staticServedResources := registeredResources calls |}).
  { intros calls. by rewrite builderRun_node. }
  split; [done|]. intros calls1 calls2 Ht Hj Hh Hr.
  by rewrite !Hnode, Ht, Hj, Hh, Hr.
Qed.

(** X11.  [get] reads the realized list only, and no builder method fills it:
    on the [TableDefs] of a node built from [withNamespace], [get] fails for
    every name, the names of the tables added with [addTable] included. *)
Theorem get_fails_on_builder (ns n : string) (calls : list BuilderCall) :
  TableDefs.get n (tableDefs (builderRun calls (ModuleFactory.withNamespace ns)))
  = Throw (NoSuchElementException "None.get").
Proof. by rewrite builderRun_node. Qed.

(** X12.  [addRealized] makes a new name resolvable and never redirects a
    name that already resolves: [get] keeps returning the earlier definition,
    returns the added one for a name that was unknown, and still fails for any
    other name.  [add] and [addJoin] leave every [get] unchanged. *)
Theorem get_after_addRealized (n : string) (tableDef : TableDef) (tds : TableDefs.t) :
  (∀ found, TableDefs.get n tds = Ok found →
            TableDefs.get n (TableDefs.addRealized tableDef tds) = Ok found)
  ∧ (∀ e, TableDefs.get n tds = Throw e → TableDef_name tableDef = n →
          TableDefs.get n (TableDefs.addRealized tableDef tds) = Ok tableDef)
  ∧ (∀ e, TableDefs.get n tds = Throw e → TableDef_name tableDef ≠ n →
          TableDefs.get n (TableDefs.addRealized tableDef tds) = Throw e)
  ∧ (∀ func, TableDefs.get n (TableDefs.add tableDef func tds) = TableDefs.get n tds)
  ∧ (∀ func, TableDefs.get n (TableDefs.addJoin func tds) = TableDefs.get n tds).
Proof.
  unfold TableDefs.get. simpl. rewrite find_app_first.
  destruct (List.find _ (TableDefs.realizedTableDefs tds)) as [td|]; simpl.
  - split_and!; try done.
  - split_and!; try done.
    + intros e _ Hn. by rewrite bool_decide_eq_true_2.
    + intros e [= <-] Hn. by rewrite bool_decide_eq_false_2.
Qed.

Lemma realizeJoins_app funcs1 funcs2 : ∀ tds,
  realizeJoins (funcs1 ++ funcs2) tds
  = match realizeJoins funcs1 tds with
    | Ok tds' => realizeJoins funcs2 tds'
    | Throw e => Throw e
    end.
Proof.
  induction funcs1 as [|func funcs1 IH]; intros tds; [done|].
  rewrite <- app_comm_cons.
  destruct (func (TableDefs.realizedTableDefs tds)) as [r|e] eqn:Hfunc.
  - by rewrite !(realizeJoins_cons_Ok _ _ _ _ Hfunc), IH.
  - by rewrite !(realizeJoins_cons_Throw _ _ _ _ Hfunc).
Qed.

Lemma realizeJoins_total funcs : ∀ tds,
  (∀ func, func ∈ funcs → ∀ realized, ∃ r, func realized = Ok r) →
  ∃ tds', realizeJoins funcs tds = Ok tds'.
Proof.
  induction funcs as [|func funcs IH]; intros tds Htotal.
  - by eexists.
  - destruct (Htotal func (list_elem_of_here _ _) (TableDefs.realizedTableDefs tds))
      as [r Hr].
    rewrite (realizeJoins_cons_Ok _ _ _ _ Hr). apply IH.
    intros g Hg. apply Htotal. by right.
Qed.

(** X13.  The provider of a table is the provider function of the first base
    table definition with the table's name, applied to the table and the
    server; for a table whose name no base definition has -- a join table, for
    one -- [getProviderForTable] fails. *)
Theorem getProviderForTable_by_name (node : t) (m : ViewServerModule.t)
    (table : DataTable) (viewserver : VuuServer) :
  asModule node = Ok m →
  (∀ l1 td func l2,
     TableDefs.tableDefs (tableDefs node) = l1 ++ (td, func) :: l2 →
     TableDef_name td = DataTable_name table →
     (∀ x, x ∈ l1 → TableDef_name x.1 ≠ DataTable_name table) →
     ViewServerModule.getProviderForTable m table viewserver = Ok (func table viewserver))
  ∧ ((∀ x, x ∈ TableDefs.tableDefs (tableDefs node) →
           TableDef_name x.1 ≠ DataTable_name table) →
     ViewServerModule.getProviderForTable m table viewserver
     = Throw (NoSuchElementException "None.get")).
Proof.
  unfold asModule. destruct (realizeJoins _ _) as [tds'|e]; simpl; [|done].
  intros [= <-]. simpl. split.
  - intros l1 td func l2 Hl Hn Hl1.
    assert (Hfind : List.find
              (fun '(td, _) => bool_decide (TableDef_name td = DataTable_name table))
              (TableDefs.tableDefs (tableDefs node)) = Some (td, func)).
    { apply find_Some_first. exists l1, l2. split_and!; [done| |].
      - by apply bool_decide_eq_true.
      - intros [x f] Hx. apply bool_decide_eq_false. by apply (Hl1 (x, f)). }
    by rewrite Hfind.
  - intros Hall.
    assert (Hfind : List.find
              (fun '(td, _) => bool_decide (TableDef_name td = DataTable_name table))
              (TableDefs.tableDefs (tableDefs node)) = None).
    { apply find_None_all. intros [x f] Hx. apply bool_decide_eq_false.
      by apply (Hall (x, f)). }
    by rewrite Hfind.
Qed.


(** X15.  Realization is incremental in the last join: the module of a node
    extended by [addJoinTable] fails as the module of the node fails; when the
    node's module is built, the added join function is called with exactly
    that module's table definitions, its result is appended to them, and its
    failure is the failure of [asModule]. *)
Theorem asModule_addJoinTable (func : TableDefs.JoinFunc) (node : t) :
  (∀ e, asModule node = Throw e → asModule (addJoinTable func node) = Throw e)
  ∧ (∀ m, asModule node = Ok m →
       (∀ r, func (ViewServerModule.tableDefs m) = Ok r →
             ∃ m', asModule (addJoinTable func node) = Ok m'
                   ∧ ViewServerModule.tableDefs m'
                     = ViewServerModule.tableDefs m ++ [JoinTableDef_upcast r])
       ∧ (∀ e, func (ViewServerModule.tableDefs m) = Throw e →
               asModule (addJoinTable func node) = Throw e)).
Proof.
  unfold asModule.
  cbn [addJoinTable tableDefs TableDefs.addJoin TableDefs.tableDefs TableDefs.joinDefs
       rpc vsName staticServedResources].
  rewrite realizeJoins_app.
  destruct (realizeJoins (TableDefs.joinDefs (tableDefs node)) _) as [tds'|e0];
    cbn [mbind Result_bind].
  - split; [done|]. intros m [= <-]. cbn [ViewServerModule.tableDefs]. split.
    + intros r Hr. rewrite (realizeJoins_cons_Ok _ _ _ _ Hr). simpl. by eexists.
    + intros e He. by rewrite (realizeJoins_cons_Throw _ _ _ _ He).
  - split; [|done]. by intros e [= <-].
Qed.

(** X16.  The module built by [asModule] carries the node's name and static
    resources unchanged; its table definitions begin with the base table
    definitions in [addTable] order and number the base tables plus the join
    functions. *)
Theorem asModule_fields (node : t) (m : ViewServerModule.t) :
  asModule node = Ok m →
  ViewServerModule.name m = vsName node
  ∧ ViewServerModule.staticFileResources m = staticServedResources node
  ∧ (TableDefs.tableDefs (tableDefs node)).*1 `prefix_of` ViewServerModule.tableDefs m
  ∧ length (ViewServerModule.tableDefs m)
    = length (TableDefs.tableDefs (tableDefs node))
      + length (TableDefs.joinDefs (tableDefs node)).
Proof.
  unfold asModule.
  destruct (realizeJoins _ _) as [tds'|e] eqn:Hloop; simpl; [|done].
  intros [= <-]. simpl.
  apply realizeJoins_Ok in Hloop as (results & Hlen & _ & ->). simpl.
  split_and!; [done..|by apply prefix_app_r|].
  by rewrite length_app, !length_fmap, Hlen.
Qed.

(** X17.  [asModule] can fail through a join function only: when every
    registered join function returns a definition on every realized list --
    in particular when there is no join function -- the module is built. *)
Theorem asModule_fails_only_through_joins (node : t) :
  (∀ func, func ∈ TableDefs.joinDefs (tableDefs node) →
           ∀ realized, ∃ r, func realized = Ok r) →
  ∃ m, asModule node = Ok m.
Proof.
  intros Htotal. unfold asModule.
  destruct (realizeJoins_total (TableDefs.joinDefs (tableDefs node))
              {| TableDefs.realizedTableDefs := (TableDefs.tableDefs (tableDefs node)).*1;
                 TableDefs.tableDefs := []; TableDefs.joinDefs := [] |} Htotal)
    as [tds' Hloop].
  rewrite Hloop. by eexists.
Qed.

End ModuleFactory_further.

(** ** The further module properties on the example modules *)

Lemma builder_accumulates_by_kind_witness :
  @builderRun namesApi joinFirstCalls (@ModuleFactory.withNamespace namesApi "TEST")
  = @builderRun namesApi tablesThenJoinCalls (@ModuleFactory.withNamespace namesApi "TEST").
Proof.
  destruct (@builder_accumulates_by_kind namesApi "TEST") as [_ Hcomm].
  apply Hcomm; reflexivity.
Defined.

Lemma get_after_addRealized_witness :
  @TableDefs.get namesApi "prices"
    (@TableDefs.addRealized namesApi "prices" (@TableDefs.ofRealized namesApi ["orders"]))
  = @Ok (@TableDef namesApi) "prices".
Proof.
  destruct (@get_after_addRealized namesApi "prices" "prices"
              (@TableDefs.ofRealized namesApi ["orders"])) as (_ & Hnew & _).
  apply (Hnew (NoSuchElementException "None.get")); reflexivity.
Defined.

Lemma getProviderForTable_by_name_witness :
  ∃ m,
    @ModuleFactoryNode.asModule namesApi orderedNode = Ok m
    ∧ ViewServerModule.getProviderForTable m "orders" tt = Ok tt
    ∧ ViewServerModule.getProviderForTable m "orderPrices" tt
      = Throw (NoSuchElementException "None.get").
Proof.
  destruct (@ModuleFactoryNode.asModule namesApi orderedNode) as [m|e] eqn:Hm;
    [|vm_compute in Hm; discriminate].
  exists m. split; [reflexivity|].
  destruct (@getProviderForTable_by_name namesApi orderedNode m "orders" tt Hm)
    as [Hfound _].
  destruct (@getProviderForTable_by_name namesApi orderedNode m "orderPrices" tt Hm)
    as [_ Hnone].
  split.
  - apply (Hfound [] "orders" (fun _ _ => tt) [("prices", fun _ _ => tt)]);
      [reflexivity | reflexivity | by intros x ?%elem_of_nil].
  - apply Hnone. intros x Hx. unfold orderedNode in Hx.
    rewrite builderRun_node in Hx. simpl in Hx.
    rewrite !elem_of_cons, elem_of_nil in Hx.
    destruct Hx as [->|[->|[]]]; discriminate.
Defined.


Lemma asModule_addJoinTable_witness :
  ∃ m',
    @ModuleFactoryNode.asModule namesApi
      (@ModuleFactoryNode.addJoinTable namesApi
         (@joinOf namesApi "orders" "prices" "orderPrices") tablesOnlyNode) = Ok m'
    ∧ ViewServerModule.tableDefs m' = ["orders"; "prices"; "orderPrices"].
Proof.
  destruct (@ModuleFactoryNode.asModule namesApi tablesOnlyNode) as [m|e] eqn:Hm;
    [|vm_compute in Hm; discriminate].
  destruct (@asModule_addJoinTable namesApi
              (@joinOf namesApi "orders" "prices" "orderPrices") tablesOnlyNode)
    as [_ Hok].
  destruct (Hok m Hm) as [Hmore _].
  assert (Hdefs : ViewServerModule.tableDefs m = ["orders"; "prices"]).
  { vm_compute in Hm. by injection Hm as <-. }
  destruct (Hmore "orderPrices") as (m' & Hm' & Hdefs').
  - rewrite Hdefs. reflexivity.
  - exists m'. split; [exact Hm'|]. rewrite Hdefs', Hdefs. reflexivity.
Defined.

Lemma asModule_fields_witness :
  ∃ m,
    @ModuleFactoryNode.asModule namesApi orderedNode = Ok m
    ∧ ViewServerModule.name m = "TEST"
    ∧ length (ViewServerModule.tableDefs m) = 4.
Proof.
  destruct (@ModuleFactoryNode.asModule namesApi orderedNode) as [m|e] eqn:Hm;
    [|vm_compute in Hm; discriminate].
  exists m. split; [reflexivity|].
  destruct (@asModule_fields namesApi orderedNode m Hm) as (Hname & _ & _ & Hlen).
  split; [exact Hname | exact Hlen].
Defined.

Lemma asModule_fails_only_through_joins_witness :
  ∃ m, @ModuleFactoryNode.asModule namesApi tablesOnlyNode = Ok m.
Proof.
  apply (@asModule_fails_only_through_joins namesApi tablesOnlyNode).
  intros func Hfunc. by apply elem_of_nil in Hfunc.
Defined.
